(** * User registry service (server.js): model and verified properties

    The service keeps one module-level array [users_list] and exposes four
    Express handlers over it (POST /users, GET, PUT and DELETE /users/:id).
    Each handler is embedded as a pure function from the array before the
    request to the array after it and the response sent.

    Conventions of the embedding.
    - A JavaScript string is a [string]; every [ascii] stands for one code
      unit in the Latin-1 range (U+0000..U+00FF).  Code units above U+00FF
      are outside the model.
    - A JavaScript Number is a [Number]: NaN, an infinity, or the exact
      value [m * 2^e] of a finite double.  The sign of zero is not kept;
      [==] does not observe it.
    - A stored [id] is the integer [users_list.length + 1]; array lengths
      stay below 2^32, so it is an exactly representable Number and is kept
      as a [Z].
    - A field of the JSON body is absent, a string or an array of strings
      (a [Field]); the handlers do not check which, and store what the
      validation chains let through. *)

From Stdlib Require Import ZArith Ascii String.
From stdpp Require Import base decidable option list strings.

Local Open Scope string_scope.
Local Open Scope Z_scope.

(** ** JavaScript strings *)

Module JsString.

(** The Latin-1 members of the classes WhiteSpace and LineTerminator:
    TAB, LF, VT, FF, CR, SP and NBSP.  The regular-expression class \s
    and StrWhiteSpaceChar of the numeric-string grammar are both this
    set. *)
Definition is_space (c : ascii) : bool :=
  let n := Z.of_N (N_of_ascii c) in
  ((9 <=? n) && (n <=? 13)) || (n =? 32) || (n =? 160).

(** [str.replace(/^\s+/g, '')] *)
Fixpoint ltrim (s : string) : string :=
  match s with
  | EmptyString => EmptyString
  | String c s' => if is_space c then ltrim s' else s
  end.

(** [while (/\s/.test(str.charAt(i))) i -= 1; str.slice(0, i + 1)] *)
Fixpoint rtrim (s : string) : string :=
  match s with
  | EmptyString => EmptyString
  | String c s' =>
      match rtrim s' with
      | EmptyString => if is_space c then EmptyString else String c EmptyString
      | r => String c r
      end
  end.

Definition trim (s : string) : string := rtrim (ltrim s).

Definition is_empty (s : string) : bool :=
  match s with EmptyString => true | _ => false end.

Definition digit (c : ascii) : option Z :=
  let n := Z.of_N (N_of_ascii c) in
  if (48 <=? n) && (n <=? 57) then Some (n - 48) else None.

(** Value of [c] as a digit of the given radix (2, 8, 10 or 16). *)
Definition digit_in (radix : Z) (c : ascii) : option Z :=
  let n := Z.of_N (N_of_ascii c) in
  let v := if (48 <=? n) && (n <=? 57) then n - 48
           else if (97 <=? n) && (n <=? 102) then n - 87
           else if (65 <=? n) && (n <=? 70) then n - 55
           else radix in
  if v <? radix then Some v else None.

(** The longest prefix of decimal digits, and what follows it. *)
Fixpoint span_digits (s : string) : list Z * string :=
  match s with
  | EmptyString => ([], EmptyString)
  | String c s' =>
      match digit c with
      | Some d => let '(ds, rest) := span_digits s' in (d :: ds, rest)
      | None => ([], s)
      end
  end.

(** All the characters as digits of [radix], or [None] if one is not. *)
Fixpoint all_digits (radix : Z) (s : string) : option (list Z) :=
  match s with
  | EmptyString => Some []
  | String c s' =>
      d ← digit_in radix c; ds ← all_digits radix s'; Some (d :: ds)
  end.

Definition digits_value (radix : Z) (ds : list Z) : Z :=
  fold_left (λ acc d, acc * radix + d) ds 0.

End JsString.

(** ** JavaScript Numbers and the coercion of a string to a Number *)

Module JsNumber.
Import JsString.

Inductive Number : Type :=
| NaN
| Infinity (negative : bool)
| Finite (m e : Z).   (* the double of value m * 2^e *)

(** [n / d] rounded to the nearest integer, ties to even ([0 < d]). *)
Definition round_half_even (n d : Z) : Z :=
  let k := n / d in
  let r := n mod d in
  match 2 * r ?= d with
  | Lt => k
  | Gt => k + 1
  | Eq => if Z.even k then k else k + 1
  end.

(** [a * 2^k] for any sign of [k], as a fraction. *)
Definition scale2 (a b k : Z) : Z * Z :=
  if 0 <=? k then (a * 2 ^ k, b) else (a, b * 2 ^ (- k)).

(** The exponent [e] with [2^e <= a / b < 2^(e+1)], for [0 < a], [0 < b]. *)
Definition floor_log2 (a b : Z) : Z :=
  let e0 := Z.log2 a - Z.log2 b in
  let '(n, d) := scale2 a b (- e0) in
  if d <=? n then e0 else e0 - 1.

(** The binary64 value nearest to [a / b] ([0 <= a], [0 < b]): 53 bits of
    precision, smallest exponent -1074, round to nearest with ties to
    even, overflow to infinity from 2^1024 on. *)
Definition round_binary64 (negative : bool) (a b : Z) : Number :=
  if a =? 0 then Finite 0 0
  else
    let q := Z.max (floor_log2 a b - 52) (-1074) in
    let '(n, d) := scale2 a b (- q) in
    let m := round_half_even n d in
    if 2 ^ 1024 <=? m * 2 ^ Z.max q 0 then Infinity negative
    else Finite (if negative then - m else m) q.

(** [x == n] for a Number [x] and an integer-valued Number [n]. *)
Definition equals_int (x : Number) (n : Z) : bool :=
  match x with
  | Finite m e => if 0 <=? e then m * 2 ^ e =? n else m =? n * 2 ^ (- e)
  | _ => false
  end.

(** ExponentPart, optional: [e] or [E], an optional sign, one digit or
    more, nothing after it. *)
Definition exponent_part (s : string) : option Z :=
  match s with
  | EmptyString => Some 0
  | String c s' =>
      if (c =? "e")%char || (c =? "E")%char then
        let '(negative, s'') :=
          match s' with
          | String "+" t => (false, t)
          | String "-" t => (true, t)
          | _ => (false, s')
          end in
        let '(ds, rest) := span_digits s'' in
        if is_empty rest && negb (length ds =? 0)%nat then
          Some (if negative then - digits_value 10 ds else digits_value 10 ds)
        else None
      else None
  end.

(** StrUnsignedDecimalLiteral: [Infinity], or digits with an optional
    fraction and exponent and at least one digit before the exponent. *)
Definition unsigned_decimal (negative : bool) (s : string) : Number :=
  if (s =? "Infinity")%string then Infinity negative
  else
    let '(int_part, rest) := span_digits s in
    let '(frac_part, rest) :=
      match rest with
      | String "." t => span_digits t
      | _ => ([], rest)
      end in
    if (length int_part + length frac_part =? 0)%nat then NaN
    else
      match exponent_part rest with
      | None => NaN
      | Some x =>
          let mant := digits_value 10 (int_part ++ frac_part) in
          let e10 := x - Z.of_nat (length frac_part) in
          if 0 <=? e10 then round_binary64 negative (mant * 10 ^ e10) 1
          else round_binary64 negative mant (10 ^ (- e10))
      end.

(** NonDecimalIntegerLiteral without its two-character prefix. *)
Definition non_decimal (radix : Z) (s : string) : Number :=
  match all_digits radix s with
  | Some (d :: ds) => round_binary64 false (digits_value radix (d :: ds)) 1
  | _ => NaN
  end.

(** StringToNumber: surrounding white space is dropped, the empty string is
    +0, and the rest has to be a StrNumericLiteral as a whole. *)
Definition ToNumber (s : string) : Number :=
  match trim s with
  | EmptyString => Finite 0 0
  | String "0" (String c t) as lit =>
      if (c =? "x")%char || (c =? "X")%char then non_decimal 16 t
      else if (c =? "o")%char || (c =? "O")%char then non_decimal 8 t
      else if (c =? "b")%char || (c =? "B")%char then non_decimal 2 t
      else unsigned_decimal false lit
  | String "+" t => unsigned_decimal false t
  | String "-" t => unsigned_decimal true t
  | lit => unsigned_decimal false lit
  end.

End JsNumber.

(** ** The validation chains (express-validator over validator.js) *)

Module Validator.
Import JsString.

(** A field of the JSON body: absent, a string, or an array of strings.
    The handlers accept any JSON value and never check its type.  Numbers,
    booleans, null, objects and arrays of other values are outside the
    model: express-validator turns each of them, and each such element of
    an array, into one string before a validator or sanitizer sees it, so
    they behave as the string or the array of strings they are read as. *)
Inductive Field : Type :=
| Absent
| Str (s : string)
| Arr (elements : list string).

(** The strings a validator or sanitizer is run on.  express-validator
    runs it once on a field that is not an array, read as a string (an
    absent field reads as the empty string), and once on every element of
    an array: [Array.isArray(value) ? value : [value]].  An empty array
    gives it nothing to run on. *)
Definition readings (v : Field) : list string :=
  match v with
  | Absent => [EmptyString]
  | Str s => [s]
  | Arr elements => elements
  end.

(** A sanitizer in a chain: the field is replaced in [req.body] by the
    sanitized string, or by the array of the sanitized elements. *)
Definition sanitize (sanitizer : string → string) (v : Field) : Field :=
  match v with
  | Absent => Str (sanitizer EmptyString)
  | Str s => Str (sanitizer s)
  | Arr elements => Arr (map sanitizer elements)
  end.

(** [notEmpty()]: the string has a character. *)
Definition notEmpty (s : string) : bool := negb (is_empty s).

(** [isInt()] with its default options, the pattern [^[-+]?[0-9]+$]. *)
Definition isInt (s : string) : bool :=
  let unsigned :=
    match s with
    | String "+" t => t
    | String "-" t => t
    | _ => s
    end in
  let '(ds, rest) := span_digits unsigned in
  negb (length ds =? 0)%nat && is_empty rest.

Inductive Location : Type := InBody | InParams.

(** One entry of [errors.array()].  The entry also carries the offending
    value, which is not modelled. *)
Record ValidationError : Type := mkError {
  location : Location;
  path : string;
  msg : string;
}.

(** One run of a validator: no error when it passes, else one error with
    the chain's [withMessage] text. *)
Definition check (ok : bool) (loc : Location) (field message : string)
  : list ValidationError :=
  if ok then [] else [mkError loc field message].

(** A validator in a chain on a body field: one run, and so at most one
    error, for every reading of the field. *)
Definition validate (validator : string → bool) (field message : string)
    (v : Field) : list ValidationError :=
  flat_map (λ s, check (validator s) InBody field message) (readings v).

End Validator.

(** ** The handlers of server.js *)

Module Server.
Import JsString JsNumber Validator.

Record User : Type := mkUser {
  id : Z;
  name : Field;
  email : Field;
}.

Record Body : Type := mkBody {
  body_name : Field;
  body_email : Field;
}.

Inductive Json : Type :=
| JUser (u : User)
| JMessage (message : string)
| JErrors (errors : list ValidationError).

Record Response : Type := mkResponse {
  status : Z;
  json : Json;
}.

Inductive Request : Type :=
| POST_users (body : Body)
| GET_users_id (param_id : string)
| PUT_users_id (param_id : string) (body : Body)
| DELETE_users_id (param_id : string).

(** [u.id == req.params.id]: a Number against a String, so the string is
    coerced with ToNumber and the Numbers are compared. *)
Definition id_matches (param_id : string) (u : User) : Prop :=
  equals_int (ToNumber param_id) (id u) = true.

#[global] Instance id_matches_dec param_id u : Decision (id_matches param_id u).
Proof. unfold id_matches. apply _. Defined.

Definition not_found : Response := mkResponse 404 (JMessage "User is not found").

Section Handlers.

(** validator.js's [isEmail] with its default options: an external
    dependency, of which the handlers use the verdict only. *)
Variable isEmail : string → bool.

(** app.post('/users', ...).  The [trim()] sanitizer writes the trimmed
    name back into [req.body], so [notEmpty()] and the handler read the
    trimmed name. *)
Definition post_users (users_list : list User) (body : Body)
  : list User * Response :=
  let name := sanitize trim (body_name body) in
  let email := body_email body in
  let errors :=
    (validate notEmpty "name" "Name is required" name ++
     validate isEmail "email" "Valid email is required" email)%list in
  match errors with
  | _ :: _ => (users_list, mkResponse 400 (JErrors errors))
  | [] =>
      let newUser := mkUser (Z.of_nat (length users_list) + 1) name email in
      ((users_list ++ [newUser])%list, mkResponse 201 (JUser newUser))
  end.

(** app.get('/users/:id', ...) *)
Definition get_users_id (users_list : list User) (param_id : string)
  : list User * Response :=
  match list_find (id_matches param_id) users_list with
  | None => (users_list, not_found)
  | Some (_, user) => (users_list, mkResponse 200 (JUser user))
  end.

(** app.put('/users/:id', ...).  [user] is the object stored in the array,
    so assigning its fields changes the array element at its index. *)
Definition put_users_id (users_list : list User) (param_id : string) (body : Body)
  : list User * Response :=
  let name := sanitize trim (body_name body) in
  let email := body_email body in
  let errors :=
    (check (isInt param_id) InParams "id" "ID should be an integer" ++
     validate notEmpty "name" "Name is mandatory" name ++
     validate isEmail "email" "Valid email is required" email)%list in
  match errors with
  | _ :: _ => (users_list, mkResponse 400 (JErrors errors))
  | [] =>
      match list_find (id_matches param_id) users_list with
      | None => (users_list, not_found)
      | Some (i, user) =>
          let user := mkUser (id user) name email in
          (<[i := user]> users_list, mkResponse 200 (JUser user))
      end
  end.

(** app.delete('/users/:id', ...) *)
Definition delete_users_id (users_list : list User) (param_id : string)
  : list User * Response :=
  match list_find (id_matches param_id) users_list with
  | None => (users_list, not_found)
  | Some (userIndex, _) =>
      (delete userIndex users_list, mkResponse 200 (JMessage "User is deleted"))
  end.

(** The router: one request against the current array. *)
Definition handle (users_list : list User) (req : Request)
  : list User * Response :=
  match req with
  | POST_users body => post_users users_list body
  | GET_users_id param_id => get_users_id users_list param_id
  | PUT_users_id param_id body => put_users_id users_list param_id body
  | DELETE_users_id param_id => delete_users_id users_list param_id
  end.

(** The array after a sequence of requests, from [let users_list = []]. *)
Definition run (reqs : list Request) : list User :=
  fold_left (λ users_list req, fst (handle users_list req)) reqs [].

(** The array and the responses of a sequence of requests, in order. *)
Fixpoint serve (users_list : list User) (reqs : list Request)
  : list User * list Response :=
  match reqs with
  | [] => (users_list, [])
  | req :: reqs' =>
      let '(users_list', res) := handle users_list req in
      let '(final, ress) := serve users_list' reqs' in
      (final, res :: ress)
  end.

End Handlers.

End Server.
(** ** Predicates on the stored array *)

Module Invariant.
Import Server.

(** No two stored users have the same id. *)
Definition unique_ids (users_list : list User) : Prop :=
  NoDup (id <$> users_list).

(** Every stored id is the record's index plus one. *)
Definition ids_are_positions (users_list : list User) : Prop :=
  ∀ (i : nat) (u : User), users_list !! i = Some u → id u = Z.of_nat i + 1.

Definition is_delete (req : Request) : bool :=
  match req with DELETE_users_id _ => true | _ => false end.

End Invariant.

(** ** The scenario of the specification, as data *)

Module Scenario.
Import Validator Server.

(** A stand-in for [isEmail] in the closed examples: it accepts the three
    addresses below and nothing else. *)
Definition isEmail (s : string) : bool :=
  bool_decide (s ∈ ["ann@x.com"; "bo@x.com"; "cy@x.com"]).

Definition ann : Body := mkBody (Str "Ann") (Str "ann@x.com").
Definition bo : Body := mkBody (Str "Bo") (Str "bo@x.com").
Definition cy : Body := mkBody (Str "Cy") (Str "cy@x.com").

(** The array after the single request [POST /users] for Ann. *)
Definition only_ann : list User := [mkUser 1 (Str "Ann") (Str "ann@x.com")].

(** Create Ann and Bo, delete id 1, create Cy. *)
Definition reuse : list Request :=
  [POST_users ann; POST_users bo; DELETE_users_id "1"; POST_users cy].

End Scenario.

(** ** Predicates on the records and on sequences of requests *)

Module Reachable.
Import JsString Validator Server.

Definition is_create (req : Request) : bool :=
  match req with POST_users _ => true | _ => false end.

(** The number of POST /users requests in a sequence. *)
Definition creates (reqs : list Request) : Z :=
  Z.of_nat (length (filter (λ req, is_create req = true) reqs)).

(** The array holds at most [c] records, and every stored id is at least
    the record's index plus one and at most [c]. *)
Definition ids_within (c : Z) (users_list : list User) : Prop :=
  Z.of_nat (length users_list) ≤ c ∧
  ∀ (i : nat) (u : User),
    users_list !! i = Some u → Z.of_nat i + 1 ≤ id u ≤ c.

(** The string is empty or begins with a character that is not white
    space. *)
Definition starts_clean (s : string) : Prop :=
  match s with
  | EmptyString => True
  | String c _ => is_space c = false
  end.

(** A record as the validation chains let it in: the name is a string or
    an array, every reading of it has a character in it and no white
    space around it, and [isEmail] accepts every reading of the email. *)
Definition valid_record (isEmail : string → bool) (u : User) : Prop :=
  name u ≠ Absent ∧
  Forall (λ s, s ≠ EmptyString ∧ trim s = s) (readings (name u)) ∧
  Forall (λ s, isEmail s = true) (readings (email u)).

End Reachable.

(** * Properties *)

Import JsString JsNumber Validator Server Invariant Reachable.

(** ** Strings and Numbers *)

Lemma ltrim_empty_iff (s : string) :
  ltrim s = EmptyString ↔ Forall (λ c, is_space c = true) (list_ascii_of_string s).
Proof.
  induction s as [|c s IH]; simpl.
  - split; [constructor | done].
  - destruct (is_space c) eqn:Hc.
    + rewrite IH. split; [by constructor | by inversion 1].
    + split; [done | inversion 1; congruence].
Qed.

Lemma rtrim_empty_iff (s : string) :
  rtrim s = EmptyString ↔ Forall (λ c, is_space c = true) (list_ascii_of_string s).
Proof.
  induction s as [|c s IH]; simpl.
  - split; [constructor | done].
  - destruct (rtrim s) eqn:Hr.
    + destruct (is_space c) eqn:Hc.
      * split; [intros _; constructor; [done | by apply IH] | done].
      * split; [done | inversion 1; congruence].
    + split; [done |]. inversion 1 as [|? ? ? Hs]; subst.
      apply IH in Hs. done.
Qed.

Lemma ltrim_suffix (s : string) :
  ∃ pre, list_ascii_of_string s = (pre ++ list_ascii_of_string (ltrim s))%list
         ∧ Forall (λ c, is_space c = true) pre.
Proof.
  induction s as [|c s (pre & Heq & Hpre)]; simpl.
  - by exists [].
  - destruct (is_space c) eqn:Hc.
    + exists (c :: pre). split; [by rewrite Heq at 1 | by constructor].
    + by exists [].
Qed.

(** The trimmed string is empty exactly when the string is empty or all
    white space. *)
Lemma trim_empty_iff (s : string) :
  trim s = EmptyString ↔ Forall (λ c, is_space c = true) (list_ascii_of_string s).
Proof.
  unfold trim. rewrite rtrim_empty_iff.
  destruct (ltrim_suffix s) as (pre & -> & Hpre).
  rewrite Forall_app. split; [by split | by intros [_ ?]].
Qed.

Lemma notEmpty_false (s : string) : notEmpty s = false ↔ s = EmptyString.
Proof. by destruct s. Qed.

Lemma notEmpty_true (s : string) : notEmpty s = true ↔ s ≠ EmptyString.
Proof. by destruct s. Qed.

(** ** The validation chains *)

Lemma validate_Str (validator : string → bool) (field message s : string) :
  validate validator field message (Str s)
  = check (validator s) InBody field message.
Proof. unfold validate. simpl. apply app_nil_r. Qed.

Lemma readings_sanitize (sanitizer : string → string) (v : Field) :
  readings (sanitize sanitizer v) = map sanitizer (readings v).
Proof. by destruct v. Qed.

(** A chain's errors: one copy of its error for every reading that
    fails. *)
Lemma validate_replicate (validator : string → bool) (field message : string)
    (v : Field) :
  validate validator field message v
  = replicate (length (filter (λ s, validator s = false) (readings v)))
      (mkError InBody field message).
Proof.
  unfold validate. induction (readings v) as [|s l IH]; simpl; [done |].
  rewrite IH. destruct (validator s) eqn:Hs; simpl.
  - by rewrite filter_cons_False by congruence.
  - by rewrite filter_cons_True by done.
Qed.

Lemma validate_nil (validator : string → bool) (field message : string)
    (v : Field) :
  validate validator field message v = []
  ↔ Forall (λ s, validator s = true) (readings v).
Proof.
  unfold validate. induction (readings v) as [|s l IH]; simpl.
  - split; [constructor | done].
  - rewrite Forall_cons, <- IH. destruct (validator s); simpl.
    + split; [by split | by intros [_ ?]].
    + split; [done | by intros [? _]].
Qed.



Lemma trimmed_name_passes (v : Field) :
  Forall (λ s, notEmpty s = true) (readings (sanitize trim v))
  ↔ Forall (λ s, trim s ≠ EmptyString) (readings v).
Proof.
  rewrite readings_sanitize, Forall_fmap.
  apply Forall_iff. intros s. simpl. apply notEmpty_true.
Qed.

Lemma checks_pass (a b : list ValidationError) :
  (a ++ b)%list = [] → a = [] ∧ b = [].
Proof. by destruct a. Qed.

Lemma check_pass (ok : bool) (loc : Location) (field message : string) :
  check ok loc field message = [] → ok = true.
Proof. by destruct ok. Qed.

(** Every reading passes, or one fails, and not both. *)
Lemma readings_pass_iff (validator : string → bool) (l : list string) :
  Forall (λ s, validator s = true) l
  ↔ ¬ Exists (λ s, validator s = false) l.
Proof.
  rewrite Forall_forall, Exists_exists. split.
  - intros Hpass (s & Hs & Hfail). rewrite (Hpass s Hs) in Hfail. done.
  - intros Hnone s Hs. destruct (validator s) eqn:Hv; [done |].
    destruct Hnone. eauto.
Qed.

Lemma trimmed_pass_iff (l : list string) :
  Forall (λ s, trim s ≠ EmptyString) l
  ↔ ¬ Exists (λ s, trim s = EmptyString) l.
Proof.
  rewrite Forall_forall, Exists_exists. split.
  - intros Hpass (s & Hs & Hfail). by apply (Hpass s Hs).
  - intros Hnone s Hs Hfail. destruct Hnone. eauto.
Qed.

Lemma trimmed_name_count (l : list string) :
  length (filter (λ s, notEmpty s = false) (map trim l))
  = length (filter (λ s, trim s = EmptyString) l).
Proof.
  induction l as [|s l IH]; simpl; [done |].
  rewrite !filter_cons.
  destruct (decide (notEmpty (trim s) = false)) as [Hs | Hs],
           (decide (trim s = EmptyString)) as [Ht | Ht]; simpl;
    rewrite ?IH; try done.
  - by apply notEmpty_false in Hs.
  - by apply notEmpty_false in Ht.
Qed.

(** A Number equals at most one integer. *)
Lemma equals_int_inj (x : Number) (n n' : Z) :
  equals_int x n = true → equals_int x n' = true → n = n'.
Proof.
  destruct x as [| |m e]; simpl; try done.
  destruct (0 <=? e) eqn:He; intros H1 H2.
  - apply Z.eqb_eq in H1, H2. congruence.
  - apply Z.eqb_eq in H1, H2. apply Z.leb_gt in He.
    assert (0 < 2 ^ (- e)) by (apply Z.pow_pos_nonneg; lia).
    nia.
Qed.

Lemma round_half_even_one (n : Z) : round_half_even n 1 = n.
Proof.
  unfold round_half_even. rewrite Z.mod_1_r, Z.div_1_r. done.
Qed.

Lemma floor_log2_int (n : Z) : 0 < n → floor_log2 n 1 = Z.log2 n.
Proof.
  intros Hpos. unfold floor_log2, scale2.
  change (Z.log2 1) with 0. rewrite Z.sub_0_r.
  pose proof (Z.log2_nonneg n) as Hnonneg.
  destruct (Z.log2_spec n Hpos) as [Hlow Hhigh].
  destruct (Z.leb_spec 0 (- Z.log2 n)).
  - replace (Z.log2 n) with 0 in * by lia.
    change (- 0) with 0. rewrite Z.pow_0_r, Z.mul_1_r.
    destruct (Z.leb_spec 1 n); [done | lia].
  - rewrite Z.opp_involutive, Z.mul_1_l.
    destruct (Z.leb_spec (2 ^ Z.log2 n) n); [done | lia].
Qed.

(** An integer below 2^53 is a double and equals itself as a Number; every
    id the service assigns is such an integer. *)
Lemma round_binary64_int (n : Z) :
  0 < n < 2 ^ 53 → equals_int (round_binary64 false n 1) n = true.
Proof.
  intros [Hpos Hlt]. unfold round_binary64.
  destruct (Z.eqb_spec n 0) as [-> | _]; [lia |].
  rewrite floor_log2_int by done.
  pose proof (Z.log2_nonneg n) as Hnonneg.
  assert (Z.log2 n < 53) as Hlog by (apply Z.log2_lt_pow2; lia).
  rewrite Z.max_l by lia. unfold scale2.
  destruct (Z.leb_spec 0 (- (Z.log2 n - 52))) as [_ | ?]; [| lia].
  rewrite round_half_even_one.
  assert (0 < 2 ^ (- (Z.log2 n - 52)) <= 2 ^ 52) as Hpow.
  { split; [apply Z.pow_pos_nonneg; lia | apply Z.pow_le_mono_r; lia]. }
  assert (2 ^ 53 * 2 ^ 52 < 2 ^ 1024) as Hbig.
  { rewrite <- Z.pow_add_r by lia. apply Z.pow_lt_mono_r; lia. }
  destruct (Z.leb_spec (2 ^ 1024)
              (n * 2 ^ (- (Z.log2 n - 52)) * 2 ^ Z.max (Z.log2 n - 52) 0))
    as [Hover | _].
  { rewrite Z.max_r in Hover by lia. rewrite Z.pow_0_r, Z.mul_1_r in Hover. nia. }
  unfold equals_int.
  destruct (Z.leb_spec 0 (Z.log2 n - 52)).
  - replace (Z.log2 n - 52) with 0 by lia. simpl. apply Z.eqb_eq. lia.
  - apply Z.eqb_eq. done.
Qed.

Lemma id_matches_same_id (param_id : string) (u v : User) :
  id_matches param_id u → id_matches param_id v → id u = id v.
Proof. unfold id_matches. apply equals_int_inj. Qed.

(** ** The scan of the array *)

(** [find] and [findIndex] stop at the first record that matches. *)
Lemma scan_first (param_id : string) (before after : list User) (user : User) :
  Forall (λ u, ¬ id_matches param_id u) before →
  id_matches param_id user →
  list_find (id_matches param_id) (before ++ user :: after)
  = Some (length before, user).
Proof.
  intros Hbefore Huser. apply list_find_Some. split_and!.
  - by rewrite list_lookup_middle.
  - done.
  - intros j v Hj Hlt. rewrite lookup_app_l in Hj by done.
    by eapply Forall_lookup_1 in Hbefore.
Qed.

(** A scan that finds the record at index [i] splits the array there. *)
Lemma scan_split (param_id : string) (users_list : list User) (i : nat) (user : User) :
  list_find (id_matches param_id) users_list = Some (i, user) →
  ∃ before after,
    users_list = (before ++ user :: after)%list ∧ length before = i ∧
    Forall (λ u, ¬ id_matches param_id u) before ∧ id_matches param_id user.
Proof.
  intros (Hi & Huser & Hleast)%list_find_Some.
  exists (take i users_list), (drop (S i) users_list).
  pose proof (lookup_lt_Some _ _ _ Hi) as Hlt.
  split_and!.
  - by rewrite take_drop_middle.
  - rewrite length_take. lia.
  - apply Forall_lookup. intros j v Hj.
    pose proof (lookup_lt_Some _ _ _ Hj) as Hjlt. rewrite length_take in Hjlt.
    rewrite lookup_take_lt in Hj by lia. apply (Hleast j v Hj). lia.
  - done.
Qed.

Lemma scan_none (param_id : string) (users_list : list User) :
  list_find (id_matches param_id) users_list = None
  ↔ ∀ u, u ∈ users_list → ¬ id_matches param_id u.
Proof. by rewrite list_find_None, Forall_forall. Qed.

Lemma scan_some (param_id : string) (users_list : list User) (u : User) :
  u ∈ users_list → id_matches param_id u →
  ∃ i user, list_find (id_matches param_id) users_list = Some (i, user).
Proof.
  intros Hin Hu.
  destruct (list_find_elem_of (id_matches param_id) users_list u Hin Hu) as [[i user] H].
  eauto.
Qed.

(** ** The handlers *)

Section HandlerProperties.

Variable isEmail : string → bool.

(** A request that passes both chains appends the new record. *)
Lemma post_users_validated (users_list : list User) (n e : string) :
  trim n ≠ EmptyString →
  isEmail e = true →
  post_users isEmail users_list (mkBody (Str n) (Str e))
  = ((users_list ++ [mkUser (Z.of_nat (length users_list) + 1) (Str (trim n)) (Str e)])%list,
     mkResponse 201 (JUser (mkUser (Z.of_nat (length users_list) + 1) (Str (trim n)) (Str e)))).
Proof.
  intros Hname%notEmpty_true Hemail. unfold post_users.
  cbn [body_name body_email sanitize].
  by rewrite !validate_Str, Hname, Hemail.
Qed.

(** C2: a create request whose name is non-empty after trimming and whose
    email passes [isEmail] is answered with 201 and the created record,
    whose id is the array's length before the call plus one (its name is
    the trimmed name); the array afterwards is the array before with
    exactly that record appended at the end. *)
Theorem post_users_created (users_list : list User) (n e : string) :
  trim n ≠ EmptyString →
  isEmail e = true →
  ∃ newUser,
    post_users isEmail users_list (mkBody (Str n) (Str e))
    = ((users_list ++ [newUser])%list, mkResponse 201 (JUser newUser)) ∧
    id newUser = Z.of_nat (length users_list) + 1 ∧
    name newUser = Str (trim n) ∧
    email newUser = Str e ∧
    length (fst (post_users isEmail users_list (mkBody (Str n) (Str e))))
    = S (length users_list) ∧
    ∀ i, (i < length users_list)%nat →
      fst (post_users isEmail users_list (mkBody (Str n) (Str e))) !! i
      = users_list !! i.
Proof.
  intros Hname Hemail.
  rewrite post_users_validated by done.
  eexists. split_and!; try done; simpl.
  - rewrite length_app. simpl. lia.
  - intros i Hi. by rewrite lookup_app_l.
Qed.


(** C7: read-by-id scans the array from the front, comparing each stored
    id with the path value by loose equality.  Either some record matches,
    and the answer is 200 with the first such record, or none does, and
    the answer is 404 with the message "User is not found"; the answer is
    404 exactly when no stored id loosely equals the path value.  The
    array is never changed. *)
Theorem get_users_id_scan (users_list : list User) (param_id : string) :
  ((∃ before user after,
      users_list = (before ++ user :: after)%list ∧
      Forall (λ u, ¬ id_matches param_id u) before ∧
      id_matches param_id user ∧
      get_users_id users_list param_id
      = (users_list, mkResponse 200 (JUser user)))
   ∨ ((∀ u, u ∈ users_list → ¬ id_matches param_id u) ∧
      get_users_id users_list param_id
      = (users_list, mkResponse 404 (JMessage "User is not found"))))
  ∧ (status (snd (get_users_id users_list param_id)) = 404
     ↔ ∀ u, u ∈ users_list → ¬ id_matches param_id u).
Proof.
  unfold get_users_id.
  destruct (list_find (id_matches param_id) users_list) as [[i user]|] eqn:Hfind.
  - destruct (scan_split _ _ _ _ Hfind) as (before & after & -> & _ & Hbefore & Huser).
    split.
    + left. by exists before, user, after.
    + simpl. split; [done |]. intros Hnone. exfalso.
      apply (Hnone user); [| done].
      apply elem_of_app. right. by left.
  - rewrite scan_none in Hfind. split; [by right | done].
Qed.

(** The status of a response to DELETE follows the scan in the same way. *)
Lemma delete_users_id_status (users_list : list User) (param_id : string) :
  (status (snd (delete_users_id users_list param_id)) = 404
   ↔ ∀ u, u ∈ users_list → ¬ id_matches param_id u)
  ∧ (status (snd (delete_users_id users_list param_id)) = 200
     ↔ ∃ u, u ∈ users_list ∧ id_matches param_id u).
Proof.
  unfold delete_users_id.
  destruct (list_find (id_matches param_id) users_list) as [[i user]|] eqn:Hfind; simpl.
  - apply list_find_Some in Hfind as (Hi & Huser & _).
    apply list_elem_of_lookup_2 in Hi.
    split; split; try done.
    + intros Hnone. by destruct (Hnone user).
    + eauto.
  - rewrite scan_none in Hfind. split; split; try done.
    intros (u & Hin & Hu). by destruct (Hfind u).
Qed.

Lemma get_users_id_status (users_list : list User) (param_id : string) :
  (status (snd (get_users_id users_list param_id)) = 404
   ↔ ∀ u, u ∈ users_list → ¬ id_matches param_id u)
  ∧ (status (snd (get_users_id users_list param_id)) = 200
     ↔ ∃ u, u ∈ users_list ∧ id_matches param_id u).
Proof.
  unfold get_users_id.
  destruct (list_find (id_matches param_id) users_list) as [[i user]|] eqn:Hfind; simpl.
  - apply list_find_Some in Hfind as (Hi & Huser & _).
    apply list_elem_of_lookup_2 in Hi.
    split; split; try done.
    + intros Hnone. by destruct (Hnone user).
    + eauto.
  - rewrite scan_none in Hfind. split; split; try done.
    intros (u & Hin & Hu). by destruct (Hfind u).
Qed.

(** C3: whatever the request and the array, a response with status 400 or
    404 leaves the array exactly as it was. *)
Theorem error_leaves_users_list (users_list : list User) (req : Request) :
  status (snd (handle isEmail users_list req)) = 400
  ∨ status (snd (handle isEmail users_list req)) = 404 →
  fst (handle isEmail users_list req) = users_list.
Proof.
  destruct req as [body | param_id | param_id body | param_id]; simpl.
  - unfold post_users.
    destruct (_ ++ _)%list; simpl; [intros [?|?]; discriminate | done].
  - unfold get_users_id.
    by destruct (list_find _ _) as [[i user]|].
  - unfold put_users_id.
    destruct (_ ++ _)%list; simpl; [| done].
    destruct (list_find _ _) as [[i user]|]; simpl; [intros [?|?]; discriminate | done].
  - unfold delete_users_id.
    destruct (list_find _ _) as [[i user]|]; simpl; [intros [?|?]; discriminate | done].
Qed.

(** With a path id that passes [isInt] and a valid body, the update goes on
    to the scan. *)
Lemma put_users_id_validated (users_list : list User) (param_id n e : string) :
  isInt param_id = true → trim n ≠ EmptyString → isEmail e = true →
  put_users_id isEmail users_list param_id (mkBody (Str n) (Str e))
  = match list_find (id_matches param_id) users_list with
    | None => (users_list, not_found)
    | Some (i, user) =>
        (<[i := mkUser (id user) (Str (trim n)) (Str e)]> users_list,
         mkResponse 200 (JUser (mkUser (id user) (Str (trim n)) (Str e))))
    end.
Proof.
  intros Hint Hname%notEmpty_true Hemail. unfold put_users_id.
  cbn [body_name body_email sanitize].
  by rewrite !validate_Str, Hint, Hname, Hemail.
Qed.

(** A path id that fails [isInt] is refused whatever the array holds. *)
Lemma put_users_id_not_int (users_list : list User) (param_id : string) (body : Body) :
  isInt param_id = false →
  ∃ errors,
    put_users_id isEmail users_list param_id body
    = (users_list,
       mkResponse 400 (JErrors (mkError InParams "id" "ID should be an integer" :: errors))).
Proof.
  intros Hint. unfold put_users_id. rewrite Hint. simpl. eauto.
Qed.

(** C4 (amended): when some stored record matches the path id, the path id
    passes [isInt], the name is non-empty after trimming and the email
    passes [isEmail], the update answers 200 with the updated record: the
    first matching record with its id kept, its name set to the trimmed
    name of the body and its email to the body's email.  The record is
    replaced where it stood; every other record, the length and the order
    of the array are unchanged, and a read of the same path id afterwards
    answers 200 with the updated record. *)
Theorem put_users_id_updated
    (users_list : list User) (param_id n e : string) (u : User) :
  u ∈ users_list → id_matches param_id u →
  isInt param_id = true → trim n ≠ EmptyString → isEmail e = true →
  ∃ before user after,
    users_list = (before ++ user :: after)%list ∧
    Forall (λ v, ¬ id_matches param_id v) before ∧
    id user = id u ∧
    let updated := mkUser (id user) (Str (trim n)) (Str e) in
    let users_list' := (before ++ updated :: after)%list in
    put_users_id isEmail users_list param_id (mkBody (Str n) (Str e))
    = (users_list', mkResponse 200 (JUser updated)) ∧
    length users_list' = length users_list ∧
    (∀ j, j ≠ length before → users_list' !! j = users_list !! j) ∧
    get_users_id users_list' param_id
    = (users_list', mkResponse 200 (JUser updated)).
Proof.
  intros Hin Hu Hint Hname Hemail.
  destruct (scan_some _ _ _ Hin Hu) as (i & user & Hfind).
  destruct (scan_split _ _ _ _ Hfind) as (before & after & -> & <- & Hbefore & Huser).
  exists before, user, after. simpl. split_and!; try done.
  - by apply (id_matches_same_id param_id).
  - rewrite put_users_id_validated, Hfind by done.
    by rewrite <- (Nat.add_0_r (length before)), insert_app_r.
  - by rewrite !length_app.
  - intros j Hj. destruct (decide (j < length before)%nat).
    + by rewrite !lookup_app_l.
    + rewrite !lookup_app_r by lia.
      destruct (j - length before)%nat eqn:Hd; [lia | done].
  - unfold get_users_id. by rewrite scan_first.
Qed.

(** Deleting a path id that matches a stored record answers 200 with the
    message "User is deleted" and removes the first matching record; the
    records before and after it keep their order. *)
Lemma delete_users_id_removed (users_list : list User) (param_id : string) (u : User) :
  u ∈ users_list → id_matches param_id u →
  ∃ before user after,
    users_list = (before ++ user :: after)%list ∧
    Forall (λ v, ¬ id_matches param_id v) before ∧
    id user = id u ∧
    delete_users_id users_list param_id
    = ((before ++ after)%list, mkResponse 200 (JMessage "User is deleted")).
Proof.
  intros Hin Hu.
  destruct (scan_some _ _ _ Hin Hu) as (i & user & Hfind).
  destruct (scan_split _ _ _ _ Hfind) as (before & after & -> & <- & Hbefore & Huser).
  exists before, user, after. split_and!; try done.
  - by apply (id_matches_same_id param_id).
  - unfold delete_users_id. by rewrite Hfind, delete_middle.
Qed.

(** While the stored ids are pairwise distinct, deleting the same path id a
    second time answers 404. *)
Lemma delete_users_id_twice (users_list : list User) (param_id : string) (u : User) :
  NoDup (id <$> users_list) →
  u ∈ users_list → id_matches param_id u →
  delete_users_id (fst (delete_users_id users_list param_id)) param_id
  = (fst (delete_users_id users_list param_id), not_found).
Proof.
  intros Hnodup Hin Hu.
  destruct (delete_users_id_removed _ _ _ Hin Hu)
    as (before & user & after & -> & Hbefore & Hid & ->). simpl.
  assert (id_matches param_id user) as Huser.
  { unfold id_matches in *. by rewrite Hid. }
  unfold delete_users_id.
  destruct (list_find _ _) as [[j v]|] eqn:Hfind; [exfalso | done].
  apply list_find_Some in Hfind as (Hj & Hv & _).
  apply list_elem_of_lookup_2, elem_of_app in Hj.
  rewrite fmap_app, fmap_cons in Hnodup.
  apply NoDup_app in Hnodup as (_ & Hdisj & Hafter).
  apply NoDup_cons in Hafter as (Hnotin & _).
  pose proof (id_matches_same_id _ _ _ Hv Huser) as Hsame.
  destruct Hj as [Hj | Hj].
  - rewrite Forall_forall in Hbefore. by apply (Hbefore v).
  - apply Hnotin. rewrite <- Hsame. by apply list_elem_of_fmap_2.
Qed.

(** C8 (amended): a path id that fails [isInt] makes the update answer 400
    with the validation errors, the error on [id] first, before any scan
    and with the array untouched.  Read and delete do not validate the
    path id and never answer 400: for the same path id they answer 404
    when no stored id loosely equals it and 200 when one does. *)
Theorem non_integer_path_id
    (users_list : list User) (param_id : string) (body : Body) :
  isInt param_id = false →
  (∃ errors,
     put_users_id isEmail users_list param_id body
     = (users_list,
        mkResponse 400
          (JErrors (mkError InParams "id" "ID should be an integer" :: errors))))
  ∧ (status (snd (get_users_id users_list param_id)) ≠ 400
     ∧ (status (snd (get_users_id users_list param_id)) = 404
        ↔ ∀ u, u ∈ users_list → ¬ id_matches param_id u)
     ∧ (status (snd (get_users_id users_list param_id)) = 200
        ↔ ∃ u, u ∈ users_list ∧ id_matches param_id u))
  ∧ (status (snd (delete_users_id users_list param_id)) ≠ 400
     ∧ (status (snd (delete_users_id users_list param_id)) = 404
        ↔ ∀ u, u ∈ users_list → ¬ id_matches param_id u)
     ∧ (status (snd (delete_users_id users_list param_id)) = 200
        ↔ ∃ u, u ∈ users_list ∧ id_matches param_id u)).
Proof.
  intros Hint. split_and!.
  - by apply put_users_id_not_int.
  - unfold get_users_id. by destruct (list_find _ _) as [[i user]|].
  - apply get_users_id_status.
  - apply get_users_id_status.
  - unfold delete_users_id. by destruct (list_find _ _) as [[i user]|].
  - apply delete_users_id_status.
  - apply delete_users_id_status.
Qed.

(** C9 (amended): for a stored user with id [n], every path string whose
    numeric coercion equals [n] matches a record of id [n] in read and in
    delete: read answers 200 with the first such record and delete removes
    it.  Update treats the path the same way only if it also passes
    [isInt] (as "01" does); a path that coerces to [n] but fails [isInt]
    (as " 1" and "1e0" do) is answered with 400.  The strings "01", " 1"
    and "1e0" all coerce to 1. *)
Theorem coerced_path_id_matches
    (users_list : list User) (u : User) (param_id : string) :
  u ∈ users_list →
  equals_int (ToNumber param_id) (id u) = true →
  (∃ before user after,
     users_list = (before ++ user :: after)%list ∧ id user = id u ∧
     get_users_id users_list param_id
     = (users_list, mkResponse 200 (JUser user)) ∧
     delete_users_id users_list param_id
     = ((before ++ after)%list, mkResponse 200 (JMessage "User is deleted")) ∧
     ∀ n e, trim n ≠ EmptyString → isEmail e = true →
       put_users_id isEmail users_list param_id (mkBody (Str n) (Str e))
       = if isInt param_id
         then ((before ++ mkUser (id u) (Str (trim n)) (Str e) :: after)%list,
               mkResponse 200 (JUser (mkUser (id u) (Str (trim n)) (Str e))))
         else (users_list,
               mkResponse 400
                 (JErrors [mkError InParams "id" "ID should be an integer"])))
  ∧ Forall (λ p, equals_int (ToNumber p) 1 = true) ["01"; " 1"; "1e0"]
  ∧ map isInt ["01"; " 1"; "1e0"] = [true; false; false].
Proof.
  intros Hin Hu. split; [| split; [by repeat constructor | done]].
  destruct (scan_some _ _ _ Hin Hu) as (i & user & Hfind).
  destruct (scan_split _ _ _ _ Hfind) as (before & after & -> & <- & Hbefore & Huser).
  pose proof (id_matches_same_id _ _ _ Huser Hu) as Hid.
  exists before, user, after. split_and!; try done.
  - unfold get_users_id. by rewrite Hfind.
  - unfold delete_users_id. by rewrite Hfind, delete_middle.
  - intros n e Hname Hemail. destruct (isInt param_id) eqn:Hint.
    + rewrite put_users_id_validated, Hfind, Hid by done.
      by rewrite <- (Nat.add_0_r (length before)), insert_app_r.
    + apply notEmpty_true in Hname.
      unfold put_users_id. cbn [body_name body_email sanitize].
      by rewrite !validate_Str, Hint, Hname, Hemail.
Qed.

(** C10: in an array where [first] is the first record with its id and a
    later record [dup] has the same id, a path id that matches that id
    makes read answer with [first], makes a valid update rewrite [first]
    where it stands, and makes delete remove [first] alone: [dup] and
    every other later record stay stored, in order. *)
Theorem duplicate_ids_first_wins
    (before after : list User) (first dup : User) (param_id : string) :
  (∀ u, u ∈ before → id u ≠ id first) →
  dup ∈ after → id dup = id first →
  id_matches param_id first →
  let users_list := (before ++ first :: after)%list in
  get_users_id users_list param_id
  = (users_list, mkResponse 200 (JUser first))
  ∧ (∀ n e, isInt param_id = true → trim n ≠ EmptyString → isEmail e = true →
       put_users_id isEmail users_list param_id (mkBody (Str n) (Str e))
       = ((before ++ mkUser (id first) (Str (trim n)) (Str e) :: after)%list,
          mkResponse 200 (JUser (mkUser (id first) (Str (trim n)) (Str e)))))
  ∧ delete_users_id users_list param_id
    = ((before ++ after)%list, mkResponse 200 (JMessage "User is deleted"))
  ∧ dup ∈ fst (delete_users_id users_list param_id)
  ∧ id_matches param_id dup.
Proof.
  intros Hbefore Hdup Hid Hfirst users_list.
  assert (list_find (id_matches param_id) users_list
          = Some (length before, first)) as Hfind.
  { apply scan_first; [| done]. apply Forall_forall. intros u Hu Hmatch.
    apply (Hbefore u Hu). by apply (id_matches_same_id param_id). }
  assert (delete_users_id users_list param_id
          = ((before ++ after)%list, mkResponse 200 (JMessage "User is deleted")))
    as Hdelete.
  { unfold delete_users_id. rewrite Hfind. unfold users_list.
    by rewrite delete_middle. }
  split_and!.
  - unfold get_users_id. by rewrite Hfind.
  - intros n e Hint Hname Hemail.
    rewrite put_users_id_validated, Hfind by done. unfold users_list.
    by rewrite <- (Nat.add_0_r (length before)), insert_app_r.
  - done.
  - rewrite Hdelete. simpl. apply elem_of_app. by right.
  - unfold id_matches in *. by rewrite Hid.
Qed.

(** ** Ids over sequences of requests *)

Lemma ids_are_positions_unique (users_list : list User) :
  ids_are_positions users_list → unique_ids users_list.
Proof.
  intros Hpos. apply NoDup_alt. intros i j n Hi Hj.
  rewrite list_lookup_fmap in Hi, Hj.
  destruct (users_list !! i) as [u|] eqn:Hu; [| done].
  destruct (users_list !! j) as [v|] eqn:Hv; [| done].
  simpl in Hi, Hj. apply Hpos in Hu, Hv. simplify_eq. lia.
Qed.

(** Every request but a delete keeps each id at its index plus one. *)
Lemma handle_keeps_positions (users_list : list User) (req : Request) :
  is_delete req = false →
  ids_are_positions users_list →
  ids_are_positions (fst (handle isEmail users_list req)).
Proof.
  intros Hreq Hpos.
  destruct req as [body | param_id | param_id body | param_id]; simpl; [| | | done].
  - unfold post_users. destruct (_ ++ _)%list; simpl; [| done].
    intros i u [Hi | [Hi Hu]]%lookup_app_Some; [by apply Hpos |].
    apply list_lookup_singleton_Some in Hu as [Hz <-]. simpl. lia.
  - unfold get_users_id. by destruct (list_find _ _) as [[i user]|].
  - unfold put_users_id. destruct (_ ++ _)%list; simpl; [| done].
    destruct (list_find _ _) as [[i user]|] eqn:Hfind; simpl; [| done].
    apply list_find_Some in Hfind as (Hi & _ & _).
    intros j v [(-> & <- & _) | (_ & Hj)]%list_lookup_insert_Some; [| by apply Hpos].
    simpl. by apply Hpos.
Qed.

Lemma fold_keeps_positions (reqs : list Request) (users_list : list User) :
  forallb (λ req, negb (is_delete req)) reqs = true →
  ids_are_positions users_list →
  ids_are_positions
    (fold_left (λ users_list req, fst (handle isEmail users_list req))
       reqs users_list).
Proof.
  revert users_list. induction reqs as [|req reqs IH]; intros users_list Hreqs Hpos.
  - done.
  - simpl in Hreqs. apply andb_prop in Hreqs as [Hreq Hreqs].
    simpl. apply IH; [done |].
    apply handle_keeps_positions; [| done]. by destruct (is_delete req).
Qed.

(** As long as nothing is deleted, the stored ids are 1, 2, ... in order
    and hence pairwise distinct. *)
Lemma run_without_delete_unique (reqs : list Request) :
  forallb (λ req, negb (is_delete req)) reqs = true →
  ids_are_positions (run isEmail reqs) ∧ unique_ids (run isEmail reqs).
Proof.
  intros Hreqs.
  assert (ids_are_positions (run isEmail reqs)) as Hpos.
  { apply fold_keeps_positions; [done |]. by intros i u Hi. }
  split; [done | by apply ids_are_positions_unique].
Qed.

(** The id is reused after a delete whatever [isEmail] is, as long as it
    accepts the three addresses of the scenario. *)
Lemma id_reused_for_any_isEmail :
  isEmail "ann@x.com" = true → isEmail "bo@x.com" = true →
  isEmail "cy@x.com" = true →
  run isEmail Scenario.reuse
  = [mkUser 2 (Str "Bo") (Str "bo@x.com"); mkUser 2 (Str "Cy") (Str "cy@x.com")].
Proof.
  intros Hann Hbo Hcy.
  unfold run, Scenario.reuse, Scenario.ann, Scenario.bo, Scenario.cy.
  cbn [fold_left handle].
  rewrite (post_users_validated [] "Ann" "ann@x.com") by done. cbn [fst].
  rewrite (post_users_validated _ "Bo" "bo@x.com") by done. cbn [fst].
  change (fst (delete_users_id _ "1")) with [mkUser 2 (Str "Bo") (Str "bo@x.com")].
  by rewrite (post_users_validated _ "Cy" "cy@x.com") by done.
Qed.

End HandlerProperties.

(** ** The scenario: id reuse after a delete *)

(** C1: uniqueness of the stored ids is not an invariant of the code.
    Creating Ann and Bo, deleting id 1 and creating Cy answers 201, 201,
    200, 201 and leaves Bo and Cy stored, both with id 2: the new id is the
    array's length plus one, and the delete had shortened the array. *)
Theorem id_reused_after_delete :
  serve Scenario.isEmail [] Scenario.reuse
  = ([mkUser 2 (Str "Bo") (Str "bo@x.com"); mkUser 2 (Str "Cy") (Str "cy@x.com")],
     [mkResponse 201 (JUser (mkUser 1 (Str "Ann") (Str "ann@x.com")));
      mkResponse 201 (JUser (mkUser 2 (Str "Bo") (Str "bo@x.com")));
      mkResponse 200 (JMessage "User is deleted");
      mkResponse 201 (JUser (mkUser 2 (Str "Cy") (Str "cy@x.com")))])
  ∧ run Scenario.isEmail Scenario.reuse = fst (serve Scenario.isEmail [] Scenario.reuse)
  ∧ ¬ unique_ids (run Scenario.isEmail Scenario.reuse).
Proof.
  split_and!; [reflexivity | reflexivity |].
  unfold unique_ids. intros Hnodup.
  change (NoDup [2; 2]) in Hnodup.
  apply NoDup_cons in Hnodup as [Hnotin _]. apply Hnotin. by left.
Qed.

(** C5: the second delete of the same id is not always answered with 404.
    After the requests of [Scenario.reuse], which leave two records with
    id 2, DELETE /users/2 answers 200 twice in a row: the first removes Bo
    and leaves Cy, the second removes Cy. *)
Theorem second_delete_finds_duplicate :
  delete_users_id (run Scenario.isEmail Scenario.reuse) "2"
  = ([mkUser 2 (Str "Cy") (Str "cy@x.com")], mkResponse 200 (JMessage "User is deleted"))
  ∧ delete_users_id [mkUser 2 (Str "Cy") (Str "cy@x.com")] "2"
    = ([], mkResponse 200 (JMessage "User is deleted"))
  ∧ status <$> snd (serve Scenario.isEmail []
                      (Scenario.reuse ++ [DELETE_users_id "2"; DELETE_users_id "2"]))
    = [201; 201; 200; 201; 200; 200].
Proof. split_and!; reflexivity. Qed.

(** ** Where the code differs from the specification *)

(** C4 as written fails: the stored name is the trimmed name, not the name
    of the request body.  PUT /users/1 with name " Bo " on the array that
    holds Ann passes every validation and answers 200 with name "Bo". *)
Lemma put_users_id_stores_trimmed_name :
  isInt "1" = true
  ∧ trim " Bo " ≠ EmptyString
  ∧ Scenario.isEmail "bo@x.com" = true
  ∧ put_users_id Scenario.isEmail Scenario.only_ann "1"
      (mkBody (Str " Bo ") (Str "bo@x.com"))
    = ([mkUser 1 (Str "Bo") (Str "bo@x.com")],
       mkResponse 200 (JUser (mkUser 1 (Str "Bo") (Str "bo@x.com"))))
  ∧ name (mkUser 1 (Str "Bo") (Str "bo@x.com")) ≠ Str " Bo ".
Proof. split_and!; done. Qed.


(** C8 as written fails: "1e0" is not an integer for [isInt], yet on the
    array that holds Ann (id 1) read and delete answer 200, not 404,
    because the stored id 1 loosely equals "1e0". *)
Lemma non_integer_path_id_found :
  run Scenario.isEmail [POST_users Scenario.ann] = Scenario.only_ann
  ∧ isInt "1e0" = false
  ∧ get_users_id Scenario.only_ann "1e0"
    = (Scenario.only_ann, mkResponse 200 (JUser (mkUser 1 (Str "Ann") (Str "ann@x.com"))))
  ∧ delete_users_id Scenario.only_ann "1e0"
    = ([], mkResponse 200 (JMessage "User is deleted")).
Proof. split_and!; reflexivity. Qed.

(** C9 as written fails for update: "1e0" and " 1" coerce to the stored id
    1, yet PUT with either path and a valid body answers 400, because
    [param('id').isInt()] refuses the path before the scan. *)
Lemma coerced_path_id_refused_by_update :
  equals_int (ToNumber "1e0") 1 = true
  ∧ equals_int (ToNumber " 1") 1 = true
  ∧ put_users_id Scenario.isEmail Scenario.only_ann "1e0" Scenario.bo
    = (Scenario.only_ann,
       mkResponse 400 (JErrors [mkError InParams "id" "ID should be an integer"]))
  ∧ put_users_id Scenario.isEmail Scenario.only_ann " 1" Scenario.bo
    = (Scenario.only_ann,
       mkResponse 400 (JErrors [mkError InParams "id" "ID should be an integer"])).
Proof. split_and!; reflexivity. Qed.

(** ** The theorems at concrete requests *)

Lemma post_users_created_witness :
  ∃ newUser,
    post_users Scenario.isEmail Scenario.only_ann (mkBody (Str " Bo ") (Str "bo@x.com"))
    = ((Scenario.only_ann ++ [newUser])%list, mkResponse 201 (JUser newUser)) ∧
    id newUser = 2 ∧
    name newUser = Str "Bo" ∧
    email newUser = Str "bo@x.com" ∧
    length (fst (post_users Scenario.isEmail Scenario.only_ann
                   (mkBody (Str " Bo ") (Str "bo@x.com"))))
    = 2%nat ∧
    ∀ i, (i < 1)%nat →
      fst (post_users Scenario.isEmail Scenario.only_ann
             (mkBody (Str " Bo ") (Str "bo@x.com"))) !! i
      = Scenario.only_ann !! i.
Proof.
  apply (post_users_created Scenario.isEmail Scenario.only_ann " Bo " "bo@x.com");
    [discriminate | reflexivity].
Defined.

Lemma error_leaves_users_list_witness :
  status (snd (handle Scenario.isEmail Scenario.only_ann (DELETE_users_id "2"))) = 404
  ∧ fst (handle Scenario.isEmail Scenario.only_ann (DELETE_users_id "2"))
    = Scenario.only_ann
  ∧ status (snd (handle Scenario.isEmail Scenario.only_ann
                   (PUT_users_id "1" (mkBody (Str " ") (Str "bo@x.com"))))) = 400
  ∧ fst (handle Scenario.isEmail Scenario.only_ann
           (PUT_users_id "1" (mkBody (Str " ") (Str "bo@x.com"))))
    = Scenario.only_ann.
Proof.
  split; [reflexivity |]. split.
  - apply (error_leaves_users_list Scenario.isEmail Scenario.only_ann
             (DELETE_users_id "2")).
    right. reflexivity.
  - split; [reflexivity |].
    apply (error_leaves_users_list Scenario.isEmail Scenario.only_ann
             (PUT_users_id "1" (mkBody (Str " ") (Str "bo@x.com")))).
    left. reflexivity.
Defined.


Lemma put_users_id_updated_witness :
  ∃ before user after,
    Scenario.only_ann = (before ++ user :: after)%list ∧
    Forall (λ v, ¬ id_matches "01" v) before ∧
    id user = 1 ∧
    put_users_id Scenario.isEmail Scenario.only_ann "01"
      (mkBody (Str " Bo ") (Str "bo@x.com"))
    = ((before ++ mkUser (id user) (Str "Bo") (Str "bo@x.com") :: after)%list,
       mkResponse 200 (JUser (mkUser (id user) (Str "Bo") (Str "bo@x.com")))) ∧
    length (before ++ mkUser (id user) (Str "Bo") (Str "bo@x.com") :: after)
    = length Scenario.only_ann ∧
    (∀ j, j ≠ length before →
       (before ++ mkUser (id user) (Str "Bo") (Str "bo@x.com") :: after)%list !! j
       = Scenario.only_ann !! j) ∧
    get_users_id (before ++ mkUser (id user) (Str "Bo") (Str "bo@x.com") :: after) "01"
    = ((before ++ mkUser (id user) (Str "Bo") (Str "bo@x.com") :: after)%list,
       mkResponse 200 (JUser (mkUser (id user) (Str "Bo") (Str "bo@x.com")))).
Proof.
  apply (put_users_id_updated Scenario.isEmail Scenario.only_ann "01" " Bo " "bo@x.com"
           (mkUser 1 (Str "Ann") (Str "ann@x.com"))).
  - by left.
  - reflexivity.
  - reflexivity.
  - discriminate.
  - reflexivity.
Defined.

Lemma non_integer_path_id_witness :
  (∃ errors,
     put_users_id Scenario.isEmail Scenario.only_ann "abc" Scenario.bo
     = (Scenario.only_ann,
        mkResponse 400
          (JErrors (mkError InParams "id" "ID should be an integer" :: errors))))
  ∧ (status (snd (get_users_id Scenario.only_ann "abc")) ≠ 400
     ∧ (status (snd (get_users_id Scenario.only_ann "abc")) = 404
        ↔ ∀ u, u ∈ Scenario.only_ann → ¬ id_matches "abc" u)
     ∧ (status (snd (get_users_id Scenario.only_ann "abc")) = 200
        ↔ ∃ u, u ∈ Scenario.only_ann ∧ id_matches "abc" u))
  ∧ (status (snd (delete_users_id Scenario.only_ann "abc")) ≠ 400
     ∧ (status (snd (delete_users_id Scenario.only_ann "abc")) = 404
        ↔ ∀ u, u ∈ Scenario.only_ann → ¬ id_matches "abc" u)
     ∧ (status (snd (delete_users_id Scenario.only_ann "abc")) = 200
        ↔ ∃ u, u ∈ Scenario.only_ann ∧ id_matches "abc" u)).
Proof.
  apply (non_integer_path_id Scenario.isEmail Scenario.only_ann "abc" Scenario.bo).
  reflexivity.
Defined.

Lemma coerced_path_id_matches_witness :
  (∃ before user after,
     Scenario.only_ann = (before ++ user :: after)%list ∧ id user = 1 ∧
     get_users_id Scenario.only_ann " 1"
     = (Scenario.only_ann, mkResponse 200 (JUser user)) ∧
     delete_users_id Scenario.only_ann " 1"
     = ((before ++ after)%list, mkResponse 200 (JMessage "User is deleted")) ∧
     ∀ n e, trim n ≠ EmptyString → Scenario.isEmail e = true →
       put_users_id Scenario.isEmail Scenario.only_ann " 1" (mkBody (Str n) (Str e))
       = if isInt " 1"
         then ((before ++ mkUser 1 (Str (trim n)) (Str e) :: after)%list,
               mkResponse 200 (JUser (mkUser 1 (Str (trim n)) (Str e))))
         else (Scenario.only_ann,
               mkResponse 400
                 (JErrors [mkError InParams "id" "ID should be an integer"])))
  ∧ Forall (λ p, equals_int (ToNumber p) 1 = true) ["01"; " 1"; "1e0"]
  ∧ map isInt ["01"; " 1"; "1e0"] = [true; false; false].
Proof.
  apply (coerced_path_id_matches Scenario.isEmail Scenario.only_ann
           (mkUser 1 (Str "Ann") (Str "ann@x.com")) " 1").
  - by left.
  - reflexivity.
Defined.

Lemma duplicate_ids_first_wins_witness :
  get_users_id (run Scenario.isEmail Scenario.reuse) "2"
  = (run Scenario.isEmail Scenario.reuse,
     mkResponse 200 (JUser (mkUser 2 (Str "Bo") (Str "bo@x.com"))))
  ∧ (∀ n e, isInt "2" = true → trim n ≠ EmptyString → Scenario.isEmail e = true →
       put_users_id Scenario.isEmail (run Scenario.isEmail Scenario.reuse) "2"
         (mkBody (Str n) (Str e))
       = ([mkUser 2 (Str (trim n)) (Str e); mkUser 2 (Str "Cy") (Str "cy@x.com")],
          mkResponse 200 (JUser (mkUser 2 (Str (trim n)) (Str e)))))
  ∧ delete_users_id (run Scenario.isEmail Scenario.reuse) "2"
    = ([mkUser 2 (Str "Cy") (Str "cy@x.com")], mkResponse 200 (JMessage "User is deleted"))
  ∧ mkUser 2 (Str "Cy") (Str "cy@x.com")
    ∈ fst (delete_users_id (run Scenario.isEmail Scenario.reuse) "2")
  ∧ id_matches "2" (mkUser 2 (Str "Cy") (Str "cy@x.com")).
Proof.
  apply (duplicate_ids_first_wins Scenario.isEmail []
           [mkUser 2 (Str "Cy") (Str "cy@x.com")]
           (mkUser 2 (Str "Bo") (Str "bo@x.com")) (mkUser 2 (Str "Cy") (Str "cy@x.com")) "2").
  - intros u Hu. by apply elem_of_nil in Hu.
  - by left.
  - reflexivity.
  - reflexivity.
Defined.

(** ** Paths written in decimal digits *)

Lemma decimal_digit_cases (c : ascii) (d : Z) :
  digit_in 10 c = Some d →
  c ∈ ["0"; "1"; "2"; "3"; "4"; "5"; "6"; "7"; "8"; "9"]%char.
Proof.
  destruct c as [[] [] [] [] [] [] [] []]; intros H;
    try discriminate H;
    repeat first [apply list_elem_of_here | apply list_elem_of_further].
Qed.

Lemma decimal_digit_facts (c : ascii) (d : Z) :
  digit_in 10 c = Some d →
  digit c = Some d ∧ is_space c = false.
Proof.
  intros H. pose proof (decimal_digit_cases c d H) as Hc.
  repeat (apply elem_of_cons in Hc as [-> | Hc]; [by vm_compute in H |- * |]).
  by apply elem_of_nil in Hc.
Qed.

Lemma all_digits_span (s : string) (ds : list Z) :
  all_digits 10 s = Some ds → span_digits s = (ds, EmptyString).
Proof.
  revert ds. induction s as [|c s IH]; intros ds H; simpl in *.
  - by simplify_eq.
  - destruct (digit_in 10 c) as [d|] eqn:Hd; [| done]. simpl in H.
    destruct (all_digits 10 s) as [ds'|] eqn:Hs; [| done]. simpl in H.
    simplify_eq. apply decimal_digit_facts in Hd as [-> _].
    by rewrite (IH ds').
Qed.

Lemma all_digits_rtrim (s : string) (ds : list Z) :
  all_digits 10 s = Some ds → rtrim s = s.
Proof.
  revert ds. induction s as [|c s IH]; intros ds H; simpl in *; [done |].
  destruct (digit_in 10 c) as [d|] eqn:Hd; [| done]. simpl in H.
  destruct (all_digits 10 s) as [ds'|] eqn:Hs; [| done].
  rewrite (IH ds') by done.
  apply decimal_digit_facts in Hd as [_ ->]. by destruct s.
Qed.

Lemma all_digits_trim (s : string) (ds : list Z) :
  all_digits 10 s = Some ds → trim s = s.
Proof.
  intros H. unfold trim.
  assert (ltrim s = s) as ->; [| by eapply all_digits_rtrim].
  destruct s as [|c s]; [done |]. simpl in *.
  destruct (digit_in 10 c) as [d|] eqn:Hd; [| done].
  by apply decimal_digit_facts in Hd as [_ ->].
Qed.

(** A non-empty string of decimal digits, leading zeroes or not, passes
    [isInt] and coerces to the double nearest to its value. *)
Lemma all_digits_coerce (s : string) (d : Z) (ds : list Z) :
  all_digits 10 s = Some (d :: ds) →
  isInt s = true
  ∧ ToNumber s = round_binary64 false (digits_value 10 (d :: ds)) 1.
Proof.
  intros H.
  pose proof (all_digits_span _ _ H) as Hspan.
  pose proof (all_digits_trim _ _ H) as Htrim.
  destruct s as [|c s]; [done |].
  assert (∃ d0, digit_in 10 c = Some d0) as [d0 Hc].
  { simpl in H. destruct (digit_in 10 c); [eauto | done]. }
  assert (unsigned_decimal false (String c s)
          = round_binary64 false (digits_value 10 (d :: ds)) 1) as Hdec.
  { unfold unsigned_decimal. rewrite Hspan.
    assert ((String c s =? "Infinity")%string = false) as ->.
    { apply decimal_digit_cases in Hc.
      repeat (apply elem_of_cons in Hc as [-> | Hc]; [done |]).
      by apply elem_of_nil in Hc. }
    simpl. rewrite app_nil_r, Z.mul_1_r. done. }
  split.
  - unfold isInt.
    assert (match String c s with
            | String "+" t => t | String "-" t => t | _ => String c s
            end = String c s) as ->.
    { apply decimal_digit_cases in Hc.
      repeat (apply elem_of_cons in Hc as [-> | Hc]; [done |]).
      by apply elem_of_nil in Hc. }
    by rewrite Hspan.
  - unfold ToNumber. rewrite Htrim, <- Hdec.
    pose proof Hc as Hc'. apply decimal_digit_cases in Hc'.
    destruct s as [|c' s'].
    + repeat (apply elem_of_cons in Hc' as [-> | Hc']; [done |]).
      by apply elem_of_nil in Hc'.
    + assert (∃ d1, digit_in 10 c' = Some d1) as [d1 Hc1].
      { simpl in H. destruct (digit_in 10 c); [| done]. simpl in H.
        destruct (digit_in 10 c'); [eauto | done]. }
      apply decimal_digit_cases in Hc1.
      repeat (apply elem_of_cons in Hc' as [-> | Hc'];
              [repeat (apply elem_of_cons in Hc1 as [-> | Hc1]; [done |]);
               by apply elem_of_nil in Hc1 |]).
      by apply elem_of_nil in Hc'.
Qed.

(** ** Trimming twice *)

Lemma ltrim_starts_clean (s : string) : starts_clean (ltrim s).
Proof.
  induction s as [|c s IH]; simpl; [done |].
  by destruct (is_space c) eqn:Hc.
Qed.

Lemma rtrim_starts_clean (s : string) : starts_clean s → starts_clean (rtrim s).
Proof.
  destruct s as [|c s]; simpl; [done |]. intros Hc.
  destruct (rtrim s); [by rewrite Hc | done].
Qed.

Lemma starts_clean_ltrim (s : string) : starts_clean s → ltrim s = s.
Proof. destruct s as [|c s]; simpl; [done |]. by intros ->. Qed.

Lemma rtrim_idempotent (s : string) : rtrim (rtrim s) = rtrim s.
Proof.
  induction s as [|c s IH]; simpl; [done |].
  destruct (rtrim s) as [|c' r] eqn:Hr.
  - destruct (is_space c) eqn:Hc; simpl; [done | by rewrite Hc].
  - simpl in *. by rewrite IH.
Qed.

Lemma trim_idempotent (s : string) : trim (trim s) = trim s.
Proof.
  unfold trim.
  rewrite (starts_clean_ltrim (rtrim (ltrim s)))
    by apply rtrim_starts_clean, ltrim_starts_clean.
  apply rtrim_idempotent.
Qed.

(** ** Further properties of the handlers *)

Section Coverage.

Variable isEmail : string → bool.

(** The scan after an update: replacing a record by one with the same id
    leaves every scan at the index it had. *)
Lemma scan_insert_same_id
    (param_id : string) (users_list : list User) (i : nat) (old new : User) :
  users_list !! i = Some old → id new = id old →
  list_find (id_matches param_id) (<[i := new]> users_list)
  = (λ '(j, v), (j, if decide (j = i) then new else v))
      <$> list_find (id_matches param_id) users_list.
Proof.
  intros Hi Hid.
  assert (∀ v, id_matches param_id v → id v = id old → id_matches param_id new)
    as Hsame.
  { unfold id_matches. intros v Hv Hvid. by rewrite Hid, <- Hvid. }
  destruct (list_find (id_matches param_id) users_list) as [[j v]|] eqn:Hfind; simpl.
  - apply list_find_Some in Hfind as (Hj & Hv & Hleast).
    apply list_find_Some. destruct (decide (j = i)) as [-> | Hne].
    + simplify_eq. split_and!.
      * apply list_lookup_insert_eq. by eapply lookup_lt_Some.
      * by apply (Hsame old).
      * intros k w Hk Hlt. rewrite list_lookup_insert_ne in Hk by lia. eauto.
    + split_and!.
      * by rewrite list_lookup_insert_ne.
      * done.
      * intros k w Hk Hlt. destruct (decide (k = i)) as [-> | Hki].
        -- rewrite list_lookup_insert_eq in Hk by (by eapply lookup_lt_Some).
           simplify_eq. unfold id_matches. rewrite Hid.
           by apply (Hleast i old).
        -- rewrite list_lookup_insert_ne in Hk by done. eauto.
  - apply list_find_None. rewrite list_find_None in Hfind.
    apply Forall_insert; [done |].
    unfold id_matches. rewrite Hid.
    by eapply Forall_lookup_1 in Hfind.
Qed.

(** X1: every request is answered with a status its route documents, and
    the status tells what happened to the array.  POST answers 201 and the
    array is one longer, or 400 and the array is the same; GET answers 200
    or 404 and the array is the same; PUT answers 200 and the array has the
    same length and the same ids in the same places, or 400 or 404 and the
    array is the same; DELETE answers 200 and the array is one shorter, a
    sublist of what it was, or 404 and the array is the same. *)
Theorem response_table (users_list : list User) (req : Request) :
  match req with
  | POST_users _ =>
      (status (snd (handle isEmail users_list req)) = 201
       ∧ length (fst (handle isEmail users_list req)) = S (length users_list))
      ∨ (status (snd (handle isEmail users_list req)) = 400
         ∧ fst (handle isEmail users_list req) = users_list)
  | GET_users_id _ =>
      (status (snd (handle isEmail users_list req)) = 200
       ∨ status (snd (handle isEmail users_list req)) = 404)
      ∧ fst (handle isEmail users_list req) = users_list
  | PUT_users_id _ _ =>
      (status (snd (handle isEmail users_list req)) = 200
       ∧ length (fst (handle isEmail users_list req)) = length users_list
       ∧ id <$> fst (handle isEmail users_list req) = id <$> users_list)
      ∨ ((status (snd (handle isEmail users_list req)) = 400
          ∨ status (snd (handle isEmail users_list req)) = 404)
         ∧ fst (handle isEmail users_list req) = users_list)
  | DELETE_users_id _ =>
      (status (snd (handle isEmail users_list req)) = 200
       ∧ S (length (fst (handle isEmail users_list req))) = length users_list
       ∧ fst (handle isEmail users_list req) `sublist_of` users_list)
      ∨ (status (snd (handle isEmail users_list req)) = 404
         ∧ fst (handle isEmail users_list req) = users_list)
  end.
Proof.
  destruct req as [body | param_id | param_id body | param_id]; simpl.
  - unfold post_users. destruct (_ ++ _)%list; simpl.
    + left. split; [done |]. rewrite length_app. simpl. lia.
    + by right.
  - unfold get_users_id. destruct (list_find _ _) as [[i user]|]; simpl; auto.
  - unfold put_users_id. destruct (_ ++ _)%list; simpl; [| right; auto].
    destruct (list_find _ _) as [[i user]|] eqn:Hfind; simpl; [left | right; auto].
    apply list_find_Some in Hfind as (Hi & _ & _).
    split_and!; [done | by rewrite length_insert |].
    rewrite list_fmap_insert. simpl. apply list_insert_id.
    by rewrite list_lookup_fmap, Hi.
  - unfold delete_users_id.
    destruct (list_find _ _) as [[i user]|] eqn:Hfind; simpl; [left | right; auto].
    apply list_find_Some in Hfind as (Hi & _ & _).
    split_and!; [done | | apply sublist_delete].
    rewrite length_delete by eauto.
    apply lookup_lt_Some in Hi. lia.
Qed.

(** X2: an update is idempotent: sending the same PUT again, right after
    the first, gives the same response and leaves the array as the first
    left it, whatever the path, the body and the array. *)
Theorem put_users_id_idempotent
    (users_list : list User) (param_id : string) (body : Body) :
  put_users_id isEmail (fst (put_users_id isEmail users_list param_id body))
    param_id body
  = (fst (put_users_id isEmail users_list param_id body),
     snd (put_users_id isEmail users_list param_id body)).
Proof.
  unfold put_users_id.
  destruct (_ ++ _)%list; simpl; [| done].
  destruct (list_find _ users_list) as [[i user]|] eqn:Hfind; simpl.
  - pose proof Hfind as (Hi & _ & _)%list_find_Some.
    rewrite (scan_insert_same_id _ _ _ user) by done.
    rewrite Hfind. simpl. rewrite decide_True by done. simpl.
    by rewrite list_insert_insert_eq.
  - by rewrite Hfind.
Qed.

(** The checks of an update all pass exactly when the chains report no
    error. *)
Lemma put_users_id_no_errors (param_id : string) (body : Body) :
  (check (isInt param_id) InParams "id" "ID should be an integer" ++
   validate notEmpty "name" "Name is mandatory" (sanitize trim (body_name body)) ++
   validate isEmail "email" "Valid email is required" (body_email body))%list = []
  ↔ isInt param_id = true
    ∧ Forall (λ s, trim s ≠ EmptyString) (readings (body_name body))
    ∧ Forall (λ s, isEmail s = true) (readings (body_email body)).
Proof.
  rewrite <- trimmed_name_passes, <- !validate_nil. split.
  - intros [Hint [Hname Hemail]%checks_pass]%checks_pass.
    apply check_pass in Hint. done.
  - intros (-> & -> & ->). done.
Qed.

(** X3: what decides the status of an update.  A validator judges a field
    that is an array element by element (an empty array has nothing to
    fail) and any other field as one string.  The status is 400 exactly
    when the path id fails [isInt], the name is empty after trimming or
    the email fails [isEmail], whether or not the id is stored; it is 404
    exactly when all three pass and no stored id loosely equals the path
    id; it is 200 exactly when all three pass and some stored id does. *)
Theorem put_users_id_decides
    (users_list : list User) (param_id : string) (body : Body) :
  (status (snd (put_users_id isEmail users_list param_id body)) = 400
   ↔ isInt param_id = false
     ∨ Exists (λ s, trim s = EmptyString) (readings (body_name body))
     ∨ Exists (λ s, isEmail s = false) (readings (body_email body)))
  ∧ (status (snd (put_users_id isEmail users_list param_id body)) = 404
     ↔ (isInt param_id = true
        ∧ Forall (λ s, trim s ≠ EmptyString) (readings (body_name body))
        ∧ Forall (λ s, isEmail s = true) (readings (body_email body)))
       ∧ ∀ u, u ∈ users_list → ¬ id_matches param_id u)
  ∧ (status (snd (put_users_id isEmail users_list param_id body)) = 200
     ↔ (isInt param_id = true
        ∧ Forall (λ s, trim s ≠ EmptyString) (readings (body_name body))
        ∧ Forall (λ s, isEmail s = true) (readings (body_email body)))
       ∧ ∃ u, u ∈ users_list ∧ id_matches param_id u).
Proof.
  pose proof (put_users_id_no_errors param_id body) as Hnil.
  assert ((isInt param_id = false
           ∨ Exists (λ s, trim s = EmptyString) (readings (body_name body))
           ∨ Exists (λ s, isEmail s = false) (readings (body_email body)))
          ↔ ¬ (isInt param_id = true
               ∧ Forall (λ s, trim s ≠ EmptyString) (readings (body_name body))
               ∧ Forall (λ s, isEmail s = true) (readings (body_email body))))
    as Hbad.
  { rewrite trimmed_pass_iff, readings_pass_iff. split.
    - intros [Hint | [Hname | Hemail]] (Hint' & Hname' & Hemail');
        [congruence | done | done].
    - intros Hnot. destruct (isInt param_id); [| by left]. right.
      destruct (decide (Exists (λ s, trim s = EmptyString)
                          (readings (body_name body)))); [by left |].
      destruct (decide (Exists (λ s, isEmail s = false)
                          (readings (body_email body)))); [by right |].
      by destruct Hnot. }
  unfold put_users_id.
  destruct (_ ++ _)%list as [|err errors]; simpl.
  - assert (isInt param_id = true
            ∧ Forall (λ s, trim s ≠ EmptyString) (readings (body_name body))
            ∧ Forall (λ s, isEmail s = true) (readings (body_email body)))
      as Hvalid by (by apply Hnil).
    destruct (list_find _ _) as [[i user]|] eqn:Hfind; simpl.
    + apply list_find_Some in Hfind as (Hi%list_elem_of_lookup_2 & Huser & _).
      split_and!; split; intros H; try done.
      * by apply Hbad in H.
      * destruct H as [_ Hnone]. by destruct (Hnone user).
      * split; [done | eauto].
    + rewrite scan_none in Hfind.
      split_and!; split; intros H; try done.
      * by apply Hbad in H.
      * destruct H as [_ (u & Hin & Hu)]. by destruct (Hfind u).
  - assert (¬ (isInt param_id = true
               ∧ Forall (λ s, trim s ≠ EmptyString) (readings (body_name body))
               ∧ Forall (λ s, isEmail s = true) (readings (body_email body))))
      as Hinvalid by (by intros ?%Hnil).
    split_and!; split; intros H; try done.
    + by apply Hbad.
    + by destruct H.
    + by destruct H.
Qed.

(** X4: a path id written as decimal digits, with or without leading
    zeroes, whose value is the id of a stored user (below 2^53) passes
    [isInt] and matches that user, so read and delete answer 200 and an
    update with a valid body answers 200. *)
Theorem digit_path_id_matches
    (users_list : list User) (u : User) (param_id : string) (d : Z) (ds : list Z)
    (n e : string) :
  u ∈ users_list →
  all_digits 10 param_id = Some (d :: ds) →
  digits_value 10 (d :: ds) = id u →
  0 < id u < 2 ^ 53 →
  trim n ≠ EmptyString → isEmail e = true →
  isInt param_id = true
  ∧ id_matches param_id u
  ∧ status (snd (get_users_id users_list param_id)) = 200
  ∧ status (snd (delete_users_id users_list param_id)) = 200
  ∧ status (snd (put_users_id isEmail users_list param_id
                   (mkBody (Str n) (Str e)))) = 200.
Proof.
  intros Hin Hdigits Hvalue Hrange Hname Hemail.
  destruct (all_digits_coerce _ _ _ Hdigits) as [Hint Hnum].
  assert (id_matches param_id u) as Hu.
  { unfold id_matches. rewrite Hnum, Hvalue. by apply round_binary64_int. }
  split_and!; [done | done | | |].
  - apply get_users_id_status. eauto.
  - apply delete_users_id_status. eauto.
  - rewrite put_users_id_validated by done.
    destruct (scan_some _ _ _ Hin Hu) as (i & user & ->). done.
Qed.

(** X5: reading back what was just created.  When no stored record has
    the id the create is about to assign, a valid create followed by a read
    of any path id that coerces to the new id answers 200 with exactly the
    record the create returned. *)
Theorem read_after_create
    (users_list : list User) (n e param_id : string) :
  (∀ u, u ∈ users_list → id u ≠ Z.of_nat (length users_list) + 1) →
  trim n ≠ EmptyString → isEmail e = true →
  equals_int (ToNumber param_id) (Z.of_nat (length users_list) + 1) = true →
  ∃ newUser,
    snd (post_users isEmail users_list (mkBody (Str n) (Str e)))
    = mkResponse 201 (JUser newUser)
    ∧ snd (get_users_id
             (fst (post_users isEmail users_list (mkBody (Str n) (Str e))))
             param_id)
      = mkResponse 200 (JUser newUser).
Proof.
  intros Hfresh Hname Hemail Hp.
  rewrite post_users_validated by done. eexists. split; [done |]. simpl.
  unfold get_users_id. rewrite scan_first; [done | | done].
  apply Forall_forall. intros u Hu Hmatch. apply (Hfresh u Hu).
  by apply (equals_int_inj (ToNumber param_id)).
Qed.

(** X6: a create never changes what an already stored id refers to: if a
    read of a path id answers 200 with a record, then after any POST
    /users, accepted or refused, the same read answers 200 with the same
    record. *)
Theorem create_keeps_found_record
    (users_list : list User) (param_id : string) (user : User) (body : Body) :
  snd (get_users_id users_list param_id) = mkResponse 200 (JUser user) →
  snd (get_users_id (fst (post_users isEmail users_list body)) param_id)
  = mkResponse 200 (JUser user).
Proof.
  unfold get_users_id at 1.
  destruct (list_find _ users_list) as [[i v]|] eqn:Hfind; simpl; [| done].
  intros [= ->]. unfold post_users.
  destruct (_ ++ _)%list; simpl; unfold get_users_id.
  - by rewrite (list_find_app_l _ _ _ _ _ Hfind).
  - by rewrite Hfind.
Qed.

(** X7: create then delete is a round trip.  When no stored record has the
    id the create is about to assign, a valid create followed by a delete
    of a path id that coerces to the new id answers 200 and leaves the
    array exactly as it was before the create. *)
Theorem delete_after_create
    (users_list : list User) (n e param_id : string) :
  (∀ u, u ∈ users_list → id u ≠ Z.of_nat (length users_list) + 1) →
  trim n ≠ EmptyString → isEmail e = true →
  equals_int (ToNumber param_id) (Z.of_nat (length users_list) + 1) = true →
  delete_users_id
    (fst (post_users isEmail users_list (mkBody (Str n) (Str e)))) param_id
  = (users_list, mkResponse 200 (JMessage "User is deleted")).
Proof.
  intros Hfresh Hname Hemail Hp.
  rewrite post_users_validated by done. simpl.
  unfold delete_users_id. rewrite scan_first; [| | done].
  - by rewrite delete_middle, app_nil_r.
  - apply Forall_forall. intros u Hu Hmatch. apply (Hfresh u Hu).
    by apply (equals_int_inj (ToNumber param_id)).
Qed.

(** ** Properties of every reachable array *)

Lemma run_snoc (reqs : list Request) (req : Request) :
  run isEmail (reqs ++ [req])
  = fst (handle isEmail (run isEmail reqs) req).
Proof. unfold run. by rewrite fold_left_app. Qed.

Lemma creates_snoc (reqs : list Request) (req : Request) :
  creates (reqs ++ [req])
  = creates reqs + (if is_create req then 1 else 0).
Proof.
  unfold creates. rewrite filter_app, length_app, filter_singleton; [| exact []].
  destruct (decide (is_create req = true)) as [-> | Hreq]; simpl; [lia |].
  destruct (is_create req); [done | lia].
Qed.

Lemma handle_keeps_ids_within (c : Z) (users_list : list User) (req : Request) :
  ids_within c users_list →
  ids_within (c + (if is_create req then 1 else 0))
    (fst (handle isEmail users_list req)).
Proof.
  intros [Hlen Hids].
  destruct req as [body | param_id | param_id body | param_id]; simpl.
  - unfold post_users. destruct (_ ++ _)%list; simpl.
    + split; [rewrite length_app; simpl; lia |].
      intros i u [Hi | [Hi Hu]]%lookup_app_Some.
      * apply Hids in Hi. lia.
      * apply list_lookup_singleton_Some in Hu as [Hz <-]. simpl. lia.
    + split; [lia |]. intros i u Hi. apply Hids in Hi. lia.
  - rewrite Z.add_0_r. unfold get_users_id.
    by destruct (list_find _ _) as [[i user]|].
  - rewrite Z.add_0_r. unfold put_users_id.
    destruct (_ ++ _)%list; simpl; [| done].
    destruct (list_find _ _) as [[i user]|] eqn:Hfind; simpl; [| done].
    apply list_find_Some in Hfind as (Hi & _ & _).
    split; [by rewrite length_insert |].
    intros j v [(-> & <- & _) | (_ & Hj)]%list_lookup_insert_Some; [| by apply Hids].
    simpl. by apply Hids.
  - rewrite Z.add_0_r. unfold delete_users_id.
    destruct (list_find _ _) as [[i user]|] eqn:Hfind; simpl; [| done].
    apply list_find_Some in Hfind as (Hi & _ & _).
    split.
    + rewrite length_delete by eauto. lia.
    + intros j v Hj. rewrite list_lookup_delete in Hj.
      destruct (decide (j < i)%nat); apply Hids in Hj; lia.
Qed.

Lemma run_ids_within (reqs : list Request) :
  ids_within (creates reqs) (run isEmail reqs).
Proof.
  induction reqs as [|req reqs IH] using rev_ind.
  - split; [done |]. by intros i u Hi.
  - rewrite run_snoc, creates_snoc. by apply handle_keeps_ids_within.
Qed.

(** X8: in every array the service can reach, each stored id is at least
    the record's index plus one, hence positive, and at most the number of
    POST /users requests received so far; the array holds at most that
    many records. *)
Theorem reachable_ids_bounded (reqs : list Request) :
  Z.of_nat (length (run isEmail reqs)) ≤ creates reqs
  ∧ ∀ (i : nat) (u : User),
      run isEmail reqs !! i = Some u →
      Z.of_nat i + 1 ≤ id u ≤ creates reqs.
Proof.
  change (ids_within (creates reqs) (run isEmail reqs)).
  induction reqs as [|req reqs IH] using rev_ind.
  - split; [done |]. by intros i u Hi.
  - rewrite run_snoc, creates_snoc. by apply handle_keeps_ids_within.
Qed.

(** X9: a path id that coerces to no integer between 1 and the number of
    POST /users requests received so far is not found: whatever the
    requests were, read and delete answer 404 and leave the array as it
    is, and an update never answers 200. *)
Theorem out_of_range_path_id_not_found
    (reqs : list Request) (param_id : string) (body : Body) :
  (∀ n, 1 ≤ n ≤ creates reqs → equals_int (ToNumber param_id) n = false) →
  get_users_id (run isEmail reqs) param_id = (run isEmail reqs, not_found)
  ∧ delete_users_id (run isEmail reqs) param_id = (run isEmail reqs, not_found)
  ∧ status (snd (put_users_id isEmail (run isEmail reqs) param_id body)) ≠ 200
  ∧ fst (put_users_id isEmail (run isEmail reqs) param_id body)
    = run isEmail reqs.
Proof.
  intros Hout.
  assert (list_find (id_matches param_id) (run isEmail reqs) = None) as Hfind.
  { apply scan_none. intros u [i Hi]%list_elem_of_lookup_1 Hu.
    destruct (run_ids_within reqs) as [_ Hids]. apply Hids in Hi.
    unfold id_matches in Hu. rewrite Hout in Hu by lia. done. }
  unfold get_users_id, delete_users_id, put_users_id. rewrite Hfind.
  split_and!; [done | done | |]; by destruct (_ ++ _)%list.
Qed.

(** What the two body chains leave in [req.body] when they report no
    error is a valid record's name and email. *)
Lemma chains_pass_valid (i : Z) (name_message email_message : string)
    (body : Body) :
  validate notEmpty "name" name_message (sanitize trim (body_name body)) = [] →
  validate isEmail "email" email_message (body_email body) = [] →
  valid_record isEmail
    (mkUser i (sanitize trim (body_name body)) (body_email body)).
Proof.
  intros Hname%validate_nil Hemail%validate_nil. split_and!; simpl.
  - by destruct (body_name body).
  - rewrite readings_sanitize in Hname |- *.
    rewrite Forall_fmap in Hname |- *.
    eapply Forall_impl; [exact Hname |]. simpl. intros s Hs.
    split; [by apply notEmpty_true | apply trim_idempotent].
  - done.
Qed.

Lemma handle_keeps_valid (users_list : list User) (req : Request) :
  Forall (valid_record isEmail) users_list →
  Forall (valid_record isEmail) (fst (handle isEmail users_list req)).
Proof.
  intros Hvalid.
  destruct req as [body | param_id | param_id body | param_id]; simpl.
  - unfold post_users. destruct (_ ++ _)%list eqn:Herrors; simpl; [| done].
    apply checks_pass in Herrors as [Hname Hemail].
    apply Forall_app. split; [done |]. apply Forall_singleton.
    by eapply chains_pass_valid.
  - unfold get_users_id. by destruct (list_find _ _) as [[i user]|].
  - unfold put_users_id. destruct (_ ++ _)%list eqn:Herrors; simpl; [| done].
    apply checks_pass in Herrors as [_ Herrors].
    apply checks_pass in Herrors as [Hname Hemail].
    destruct (list_find _ _) as [[i user]|]; simpl; [| done].
    apply Forall_insert; [done |]. by eapply chains_pass_valid.
  - unfold delete_users_id.
    destruct (list_find _ _) as [[i user]|]; simpl; [| done].
    rewrite Forall_forall in Hvalid |- *.
    intros v Hv%list_elem_of_delete_inv. by apply Hvalid.
Qed.

(** X10: what the service ever stores.  Whatever the requests were, each
    stored name is a string or an array of strings, each stored email is
    a string, an array of strings or absent; every reading of a stored
    name (the string, or each element of the array) has a character in it
    and no white space around it, and [isEmail] accepts every reading of a
    stored email (the string, each element of the array, the empty string
    when absent).  An empty array has no reading and is stored as it
    is. *)
Theorem reachable_records_valid (reqs : list Request) (u : User) :
  u ∈ run isEmail reqs →
  name u ≠ Absent
  ∧ Forall (λ s, s ≠ EmptyString ∧ trim s = s) (readings (name u))
  ∧ Forall (λ s, isEmail s = true) (readings (email u)).
Proof.
  revert u. apply Forall_forall.
  induction reqs as [|req reqs IH] using rev_ind.
  - constructor.
  - rewrite run_snoc. by apply handle_keeps_valid.
Qed.

(** ** Deleting and what follows *)

(** With pairwise distinct ids, two stored records with the same id are the
    same record. *)
Lemma unique_ids_same_record (users_list : list User) (u v : User) :
  unique_ids users_list → u ∈ users_list → v ∈ users_list →
  id u = id v → u = v.
Proof.
  intros Hunique [i Hi]%list_elem_of_lookup_1 [j Hj]%list_elem_of_lookup_1 Hid.
  assert (i = j) as ->; [| congruence].
  apply (proj1 (NoDup_alt _) Hunique i j (id u)).
  - by rewrite list_lookup_fmap, Hi.
  - by rewrite list_lookup_fmap, Hj, Hid.
Qed.

(** X11: deleting while the stored ids are pairwise distinct.  The delete
    of a path id that matches the stored record [u] answers 200 and removes
    [u] and nothing else: every other record stays, the ids stay pairwise
    distinct, and right afterwards a read and a second delete of the same
    path id both answer 404. *)
Theorem delete_then_gone (users_list : list User) (param_id : string) (u : User) :
  unique_ids users_list →
  u ∈ users_list → id_matches param_id u →
  ∃ after_delete,
    delete_users_id users_list param_id
    = (after_delete, mkResponse 200 (JMessage "User is deleted"))
    ∧ (u ∉ after_delete)
    ∧ (∀ v, v ∈ users_list → v ≠ u → v ∈ after_delete)
    ∧ unique_ids after_delete
    ∧ get_users_id after_delete param_id = (after_delete, not_found)
    ∧ delete_users_id after_delete param_id = (after_delete, not_found).
Proof.
  intros Hunique Hin Hu.
  destruct (delete_users_id_removed _ _ _ Hin Hu)
    as (before & user & after & Hsplit & Hbefore & Hid & Hdelete).
  assert (user = u) as ->.
  { apply (unique_ids_same_record users_list); [done | | done | done].
    rewrite Hsplit. apply elem_of_app. right. by left. }
  subst users_list. exists (before ++ after)%list.
  assert (u ∉ (before ++ after)%list) as Hgone.
  { apply NoDup_fmap_1 in Hunique.
    apply NoDup_app in Hunique as (_ & Hdisj & [Hnotin _]%NoDup_cons).
    intros [Hb | Ha]%elem_of_app; [| done].
    apply (Hdisj u Hb). by left. }
  assert (unique_ids (before ++ after)%list) as Hunique'.
  { unfold unique_ids in *. eapply sublist_NoDup; [done |].
    apply fmap_sublist, sublist_app; [done |]. by apply sublist_cons. }
  assert (list_find (id_matches param_id) (before ++ after)%list = None) as Hfind.
  { apply scan_none. intros v Hv Hmatch. apply Hgone.
    assert (v = u) as <-; [| done].
    apply (unique_ids_same_record (before ++ u :: after)%list); [done | | done |].
    - apply elem_of_app in Hv as [Hv | Hv]; apply elem_of_app; [by left |].
      right. by right.
    - by apply (id_matches_same_id param_id). }
  split_and!; [done | done | | done | |].
  - intros v [Hv | [-> | Hv]%elem_of_cons]%elem_of_app Hne;
      apply elem_of_app; [by left | done | by right].
  - unfold get_users_id. by rewrite Hfind.
  - unfold delete_users_id. by rewrite Hfind.
Qed.

(** X12: an update does not disturb the other records' reads: when no
    stored record matches both path ids, the read of [other_id] gets the
    same response after PUT /users/[param_id] as before it, whatever the
    update did. *)
Theorem update_leaves_other_reads
    (users_list : list User) (param_id other_id : string) (body : Body) :
  (∀ u, u ∈ users_list → id_matches param_id u → ¬ id_matches other_id u) →
  snd (get_users_id (fst (put_users_id isEmail users_list param_id body)) other_id)
  = snd (get_users_id users_list other_id).
Proof.
  intros Hapart. unfold put_users_id.
  destruct (_ ++ _)%list; simpl; [| done].
  destruct (list_find _ users_list) as [[i user]|] eqn:Hfind; simpl; [| done].
  apply list_find_Some in Hfind as (Hi & Huser & _).
  unfold get_users_id.
  rewrite (scan_insert_same_id _ _ _ user) by done.
  destruct (list_find (id_matches other_id) users_list) as [[j v]|] eqn:Hother;
    simpl; [| done].
  apply list_find_Some in Hother as (Hj & Hv & _).
  destruct (decide (j = i)) as [-> | Hne]; [| done].
  rewrite Hi in Hj. injection Hj as <-.
  destruct (Hapart user); eauto using list_elem_of_lookup_2.
Qed.

(** X13: when the id reuse strikes.  Take an array in which every id is
    its index plus one (any array built without a delete), delete the
    record a path id matches, then create a user with a valid body.  The
    delete removes that record and the create appends the new one, whose
    id is the shortened length plus one.  The ids of the resulting array
    are pairwise distinct exactly when the deleted record was the last one
    of the array; when it was not, the record that was and stays last has
    the very id the new record gets. *)
Theorem delete_then_create_unique_iff
    (before after : list User) (u : User) (param_id n e : string) :
  ids_are_positions (before ++ u :: after)%list →
  id_matches param_id u →
  trim n ≠ EmptyString → isEmail e = true →
  fst (delete_users_id (before ++ u :: after)%list param_id)
  = (before ++ after)%list
  ∧ fst (post_users isEmail
           (fst (delete_users_id (before ++ u :: after)%list param_id))
           (mkBody (Str n) (Str e)))
    = (before ++ after
       ++ [mkUser (Z.of_nat (length (before ++ after)) + 1)
             (Str (trim n)) (Str e)])%list
  ∧ (unique_ids
       (fst (post_users isEmail
               (fst (delete_users_id (before ++ u :: after)%list param_id))
               (mkBody (Str n) (Str e))))
     ↔ after = [])
  ∧ (∀ w, last after = Some w →
       id w = Z.of_nat (length (before ++ after)) + 1).
Proof.
  intros Hpos Hu Hname Hemail.
  assert (delete_users_id (before ++ u :: after)%list param_id
          = ((before ++ after)%list, mkResponse 200 (JMessage "User is deleted")))
    as ->.
  { unfold delete_users_id. rewrite scan_first; [by rewrite delete_middle | | done].
    apply Forall_lookup. intros j v Hj Hv.
    pose proof (lookup_lt_Some _ _ _ Hj) as Hlt.
    pose proof (id_matches_same_id _ _ _ Hv Hu) as Hid.
    rewrite (Hpos j v) in Hid by (by rewrite lookup_app_l).
    rewrite (Hpos (length before) u) in Hid by (by rewrite list_lookup_middle).
    lia. }
  assert (∀ w, last after = Some w →
               id w = Z.of_nat (length (before ++ after)) + 1) as Hlast.
  { intros w [after' ->]%last_Some.
    rewrite (Hpos (length before + S (length after'))%nat w).
    - rewrite !length_app. simpl. lia.
    - rewrite lookup_app_r by lia.
      replace (length before + S (length after') - length before)%nat
        with (S (length after')) by lia.
      simpl. by rewrite list_lookup_middle. }
  split; [done |]. simpl. rewrite post_users_validated by done. simpl.
  split_and!; [by rewrite <- app_assoc | | done].
  split.
  - intros Hunique. destruct after as [|w after _] using rev_ind; [done |].
    exfalso. unfold unique_ids in Hunique.
    rewrite !fmap_app in Hunique. simpl in Hunique.
    apply NoDup_app in Hunique as (Hleft & Hdisj & _).
    apply (Hdisj (id w)).
    + apply elem_of_app. right. apply elem_of_app. right. by left.
    + apply list_elem_of_singleton, Hlast, last_snoc.
  - intros ->. rewrite app_nil_r. apply ids_are_positions_unique.
    intros i v [Hi | [Hi Hv]]%lookup_app_Some.
    + apply Hpos. by rewrite lookup_app_l by (by eapply lookup_lt_Some).
    + apply list_lookup_singleton_Some in Hv as [Hz <-]. simpl. lia.
Qed.

(** X14: the errors of a refused update.  A PUT answered with 400 leaves
    the array as it is and carries one error for every failed run of a
    validator, in the order id, name, email: the error on [id] once when
    the path id fails [isInt]; the error on [name] once for every reading
    of the name (the string, or each element of an array) that is empty
    after trimming; the error on [email] once for every reading of the
    email that fails [isEmail]. *)
Theorem put_users_id_errors
    (users_list : list User) (param_id : string) (body : Body) :
  status (snd (put_users_id isEmail users_list param_id body)) = 400 →
  put_users_id isEmail users_list param_id body
  = (users_list,
     mkResponse 400
       (JErrors
          ((if isInt param_id then []
            else [mkError InParams "id" "ID should be an integer"]) ++
           replicate
             (length (filter (λ s, trim s = EmptyString)
                        (readings (body_name body))))
             (mkError InBody "name" "Name is mandatory") ++
           replicate
             (length (filter (λ s, isEmail s = false)
                        (readings (body_email body))))
             (mkError InBody "email" "Valid email is required")))).
Proof.
  unfold put_users_id.
  rewrite !validate_replicate, readings_sanitize, trimmed_name_count.
  change (check (isInt param_id) InParams "id" "ID should be an integer")
    with (if isInt param_id then []
          else [mkError InParams "id" "ID should be an integer"]).
  destruct (_ ++ _)%list as [|err errors]; simpl; [| done].
  by destruct (list_find _ _) as [[i user]|].
Qed.

(** X15: as long as no DELETE was received, the ids are 1, 2, 3, ... in
    the order of creation: each stored id is its index plus one, the ids
    are pairwise distinct, and the id the next create would assign is not
    in use. *)
Theorem delete_free_ids (reqs : list Request) :
  forallb (λ req, negb (is_delete req)) reqs = true →
  (∀ (i : nat) (u : User),
     run isEmail reqs !! i = Some u → id u = Z.of_nat i + 1)
  ∧ unique_ids (run isEmail reqs)
  ∧ ∀ u, u ∈ run isEmail reqs →
      id u ≠ Z.of_nat (length (run isEmail reqs)) + 1.
Proof.
  intros Hreqs.
  destruct (run_without_delete_unique isEmail reqs Hreqs) as [Hpos Hunique].
  split_and!; [done | done |].
  intros u [i Hi]%list_elem_of_lookup_1.
  pose proof (lookup_lt_Some _ _ _ Hi) as Hlt.
  rewrite (Hpos i u Hi). lia.
Qed.

End Coverage.

(** ** The further properties at concrete requests *)

Lemma digit_path_id_matches_witness :
  isInt "01" = true
  ∧ id_matches "01" (mkUser 1 (Str "Ann") (Str "ann@x.com"))
  ∧ status (snd (get_users_id Scenario.only_ann "01")) = 200
  ∧ status (snd (delete_users_id Scenario.only_ann "01")) = 200
  ∧ status (snd (put_users_id Scenario.isEmail Scenario.only_ann "01"
                   (mkBody (Str "Bo") (Str "bo@x.com")))) = 200.
Proof.
  apply (digit_path_id_matches Scenario.isEmail Scenario.only_ann
           (mkUser 1 (Str "Ann") (Str "ann@x.com")) "01" 0 [1] "Bo" "bo@x.com").
  - by left.
  - reflexivity.
  - reflexivity.
  - split; reflexivity.
  - discriminate.
  - reflexivity.
Defined.

Lemma read_after_create_witness :
  ∃ newUser,
    snd (post_users Scenario.isEmail Scenario.only_ann
           (mkBody (Str " Bo ") (Str "bo@x.com")))
    = mkResponse 201 (JUser newUser)
    ∧ snd (get_users_id
             (fst (post_users Scenario.isEmail Scenario.only_ann
                     (mkBody (Str " Bo ") (Str "bo@x.com"))))
             "2.0")
      = mkResponse 200 (JUser newUser).
Proof.
  apply (read_after_create Scenario.isEmail Scenario.only_ann " Bo " "bo@x.com" "2.0").
  - intros u ->%list_elem_of_singleton. discriminate.
  - discriminate.
  - reflexivity.
  - reflexivity.
Defined.

Lemma create_keeps_found_record_witness :
  snd (get_users_id
         (fst (post_users Scenario.isEmail [mkUser 2 (Str "Bo") (Str "bo@x.com")]
                 Scenario.cy))
         "2")
  = mkResponse 200 (JUser (mkUser 2 (Str "Bo") (Str "bo@x.com"))).
Proof.
  apply (create_keeps_found_record Scenario.isEmail
           [mkUser 2 (Str "Bo") (Str "bo@x.com")] "2"
           (mkUser 2 (Str "Bo") (Str "bo@x.com")) Scenario.cy).
  reflexivity.
Defined.

Lemma delete_after_create_witness :
  delete_users_id
    (fst (post_users Scenario.isEmail Scenario.only_ann
            (mkBody (Str "Bo") (Str "bo@x.com")))) "2"
  = (Scenario.only_ann, mkResponse 200 (JMessage "User is deleted")).
Proof.
  apply (delete_after_create Scenario.isEmail Scenario.only_ann "Bo" "bo@x.com" "2").
  - intros u ->%list_elem_of_singleton. discriminate.
  - discriminate.
  - reflexivity.
  - reflexivity.
Defined.

Lemma out_of_range_path_id_not_found_witness :
  get_users_id (run Scenario.isEmail Scenario.reuse) "4"
  = (run Scenario.isEmail Scenario.reuse, not_found)
  ∧ delete_users_id (run Scenario.isEmail Scenario.reuse) "4"
    = (run Scenario.isEmail Scenario.reuse, not_found)
  ∧ status (snd (put_users_id Scenario.isEmail
                   (run Scenario.isEmail Scenario.reuse) "4" Scenario.ann)) ≠ 200
  ∧ fst (put_users_id Scenario.isEmail
           (run Scenario.isEmail Scenario.reuse) "4" Scenario.ann)
    = run Scenario.isEmail Scenario.reuse.
Proof.
  apply (out_of_range_path_id_not_found Scenario.isEmail Scenario.reuse "4"
           Scenario.ann).
  intros n Hn. change (creates Scenario.reuse) with 3 in Hn.
  assert (n = 1 ∨ n = 2 ∨ n = 3) as [-> | [-> | ->]] by lia; reflexivity.
Defined.

Lemma reachable_records_valid_witness :
  name (mkUser 2 (Str "Cy") (Str "cy@x.com")) ≠ Absent
  ∧ Forall (λ s, s ≠ EmptyString ∧ trim s = s)
      (readings (name (mkUser 2 (Str "Cy") (Str "cy@x.com"))))
  ∧ Forall (λ s, Scenario.isEmail s = true)
      (readings (email (mkUser 2 (Str "Cy") (Str "cy@x.com")))).
Proof.
  apply (reachable_records_valid Scenario.isEmail Scenario.reuse
           (mkUser 2 (Str "Cy") (Str "cy@x.com"))).
  right. by left.
Defined.

Lemma delete_then_gone_witness :
  ∃ after_delete,
    delete_users_id
      [mkUser 1 (Str "Ann") (Str "ann@x.com"); mkUser 2 (Str "Bo") (Str "bo@x.com")] "1"
    = (after_delete, mkResponse 200 (JMessage "User is deleted"))
    ∧ (mkUser 1 (Str "Ann") (Str "ann@x.com") ∉ after_delete)
    ∧ (∀ v, v ∈ [mkUser 1 (Str "Ann") (Str "ann@x.com"); mkUser 2 (Str "Bo") (Str "bo@x.com")] →
         v ≠ mkUser 1 (Str "Ann") (Str "ann@x.com") → v ∈ after_delete)
    ∧ unique_ids after_delete
    ∧ get_users_id after_delete "1" = (after_delete, not_found)
    ∧ delete_users_id after_delete "1" = (after_delete, not_found).
Proof.
  apply (delete_then_gone
           [mkUser 1 (Str "Ann") (Str "ann@x.com"); mkUser 2 (Str "Bo") (Str "bo@x.com")]
           "1" (mkUser 1 (Str "Ann") (Str "ann@x.com"))).
  - unfold unique_ids. simpl. apply NoDup_cons. split.
    + intros H%list_elem_of_singleton. discriminate.
    + apply NoDup_singleton.
  - by left.
  - reflexivity.
Defined.

Lemma update_leaves_other_reads_witness :
  snd (get_users_id
         (fst (put_users_id Scenario.isEmail
                 [mkUser 1 (Str "Ann") (Str "ann@x.com"); mkUser 2 (Str "Bo") (Str "bo@x.com")]
                 "1" Scenario.cy))
         "2")
  = snd (get_users_id
           [mkUser 1 (Str "Ann") (Str "ann@x.com"); mkUser 2 (Str "Bo") (Str "bo@x.com")] "2").
Proof.
  apply (update_leaves_other_reads Scenario.isEmail
           [mkUser 1 (Str "Ann") (Str "ann@x.com"); mkUser 2 (Str "Bo") (Str "bo@x.com")]
           "1" "2" Scenario.cy).
  intros u _ H1 H2.
  pose proof (equals_int_inj _ _ 1 H1 eq_refl) as Hone.
  pose proof (equals_int_inj _ _ 2 H2 eq_refl) as Htwo.
  rewrite Hone in Htwo. discriminate.
Defined.

Lemma delete_then_create_unique_iff_witness :
  fst (delete_users_id
         [mkUser 1 (Str "Ann") (Str "ann@x.com");
          mkUser 2 (Str "Bo") (Str "bo@x.com")] "1")
  = [mkUser 2 (Str "Bo") (Str "bo@x.com")]
  ∧ fst (post_users Scenario.isEmail
           (fst (delete_users_id
                   [mkUser 1 (Str "Ann") (Str "ann@x.com");
                    mkUser 2 (Str "Bo") (Str "bo@x.com")] "1"))
           (mkBody (Str "Cy") (Str "cy@x.com")))
    = [mkUser 2 (Str "Bo") (Str "bo@x.com");
       mkUser 2 (Str "Cy") (Str "cy@x.com")]
  ∧ (unique_ids
       (fst (post_users Scenario.isEmail
               (fst (delete_users_id
                       [mkUser 1 (Str "Ann") (Str "ann@x.com");
                        mkUser 2 (Str "Bo") (Str "bo@x.com")] "1"))
               (mkBody (Str "Cy") (Str "cy@x.com"))))
     ↔ [mkUser 2 (Str "Bo") (Str "bo@x.com")] = [])
  ∧ (∀ w, last [mkUser 2 (Str "Bo") (Str "bo@x.com")] = Some w → id w = 2).
Proof.
  apply (delete_then_create_unique_iff Scenario.isEmail []
           [mkUser 2 (Str "Bo") (Str "bo@x.com")]
           (mkUser 1 (Str "Ann") (Str "ann@x.com"))
           "1" "Cy" "cy@x.com").
  - intros i u Hi. destruct i as [|[|i]]; simpl in Hi; [| | discriminate];
      injection Hi as <-; reflexivity.
  - reflexivity.
  - discriminate.
  - reflexivity.
Defined.

Lemma delete_free_ids_witness :
  (∀ (i : nat) (u : User),
     run Scenario.isEmail
       [POST_users Scenario.ann; POST_users Scenario.bo;
        PUT_users_id "1" Scenario.cy; GET_users_id "2"] !! i = Some u →
     id u = Z.of_nat i + 1)
  ∧ unique_ids
      (run Scenario.isEmail
         [POST_users Scenario.ann; POST_users Scenario.bo;
          PUT_users_id "1" Scenario.cy; GET_users_id "2"])
  ∧ ∀ u, u ∈ run Scenario.isEmail
               [POST_users Scenario.ann; POST_users Scenario.bo;
                PUT_users_id "1" Scenario.cy; GET_users_id "2"] →
      id u ≠ Z.of_nat (length (run Scenario.isEmail
                                 [POST_users Scenario.ann; POST_users Scenario.bo;
                                  PUT_users_id "1" Scenario.cy; GET_users_id "2"])) + 1.
Proof.
  apply (delete_free_ids Scenario.isEmail
           [POST_users Scenario.ann; POST_users Scenario.bo;
            PUT_users_id "1" Scenario.cy; GET_users_id "2"]).
  reflexivity.
Defined.

Lemma put_users_id_errors_witness :
  put_users_id Scenario.isEmail Scenario.only_ann "1e0"
    (mkBody (Arr ["Bo"; " "; ""]) (Str "not-an-email"))
  = (Scenario.only_ann,
     mkResponse 400
       (JErrors
          [mkError InParams "id" "ID should be an integer";
           mkError InBody "name" "Name is mandatory";
           mkError InBody "name" "Name is mandatory";
           mkError InBody "email" "Valid email is required"])).
Proof.
  apply (put_users_id_errors Scenario.isEmail Scenario.only_ann "1e0"
           (mkBody (Arr ["Bo"; " "; ""]) (Str "not-an-email"))).
  reflexivity.
Defined.
